(** * sendtables/entity.go: entities, properties and delta-compressed updates

    A shallow embedding of [src/sendtables/entity.go] and the properties its
    specification states about it.

    Conventions of the embedding:
    - Go's [int] and [uint] are the 64-bit types of the amd64 port; they are
      integers of [Z] with the wrap-around of every operation written out
      (module [Go]).
    - A [*bit.BitReader] is the stream of bits still to be read; a read past
      its end panics.
    - A method with a pointer receiver on [*Entity] is an action of the monad
      [M], whose state holds the entity, the reader, the variables bound with
      [Bind], the baseline maps allocated so far and a log of every callback
      invocation.  A panic stops the action and keeps the state reached.
    - A [*Property] is the index of the property in [e.props], or [None] for
      the nil pointer. *)

From Stdlib Require Import ZArith List Lia Bool Sorted Floats Uint63.
From stdpp Require Import base option list gmap strings.

Local Open Scope Z_scope.

(** ** Go's fixed-width integers *)

Module Go.

Definition int_min : Z := - 2 ^ 63.
Definition int_max : Z := 2 ^ 63 - 1.

(** A value of type [int]. *)
Definition is_int (z : Z) : Prop := int_min <= z <= int_max.

(** Two's-complement reduction to [int]. *)
Definition wrap (z : Z) : Z := (z + 2 ^ 63) mod 2 ^ 64 - 2 ^ 63.

(** Reduction to [uint]. *)
Definition uwrap (z : Z) : Z := z mod 2 ^ 64.

Definition add (a b : Z) : Z := wrap (a + b).
Definition sub (a b : Z) : Z := wrap (a - b).
Definition mul (a b : Z) : Z := wrap (a * b).

(** The conversions [uint(x)] and [int(x)]. *)
Definition uint_of_int (a : Z) : Z := uwrap a.
Definition int_of_uint (a : Z) : Z := wrap a.

(** [^x] on [uint]. *)
Definition unot (a : Z) : Z := uwrap (Z.lnot a).

(** [a << s] on [uint] and on [int], for a shift count [s] of type [uint]:
    a count of 64 or more shifts every bit out. *)
Definition ushl (a s : Z) : Z := if 64 <=? s then 0 else uwrap (Z.shiftl a s).
Definition shl (a s : Z) : Z := if 64 <=? s then 0 else wrap (Z.shiftl a s).

End Go.

(** ** The bit reader *)

(** Modelled from the spec: the Bit Decoder ([bitread.BitReader], which is not
    part of the sources at hand), [read_bit() -> bool] and
    [read_uint(n) -> u64] over a stateful cursor.  The cursor is the list of
    the bits not yet consumed; [ReadInt n] assembles [n] bits, the first one
    read being the least significant.  Reading past the end fails. *)
Definition BitReader : Type := list bool.

(** Reader actions: [None] is the panic of a read past the end. *)
Definition R (A : Type) : Type := BitReader -> option (A * BitReader).

Definition Rret {A} (a : A) : R A := fun r => Some (a, r).

Definition Rbind {A B} (m : R A) (k : A -> R B) : R B :=
  fun r => match m r with
           | Some (a, r') => k a r'
           | None => None
           end.

Declare Scope reader_scope.
Delimit Scope reader_scope with reader.
Notation "x <- m ;; k" := (Rbind m (fun x => k))
  (at level 100, m at next level, right associativity) : reader_scope.

Definition ReadBit : R bool :=
  fun r => match r with
           | [] => None
           | b :: r' => Some (b, r')
           end.

Fixpoint ReadInt (n : nat) : R Z :=
  match n with
  | O => Rret 0
  | S n' => fun r =>
      match r with
      | [] => None
      | b :: r' =>
          match ReadInt n' r' with
          | Some (v, r'') => Some (Z.b2z b + 2 * v, r'')
          | None => None
          end
      end
  end.

(** ** The Field Index Decoder *)

(** [newWay && reader.ReadBit()]: the bit is read only when [newWay] is set. *)
Definition newWay_and_ReadBit (newWay : bool) : R bool :=
  if newWay then ReadBit else Rret false.

(** [(res & ^uint(96)) | (ext << 5)] *)
Definition extend (res ext : Z) : Z :=
  Z.lor (Z.land res (Go.unot 96)) (Go.ushl ext 5).

(** The block of [readFieldIndex] that assigns [res]:
    [var res uint; if newWay && reader.ReadBit() { ... } else { ... }]. *)
Definition read_res (newWay : bool) : R Z :=
  (b <- newWay_and_ReadBit newWay ;;
   if b then
     (* NewWay B *)
     ReadInt 3
   else
     res <- ReadInt 7 ;;
     let sel := Z.land res (Z.lor 32 64) in
     if sel =? 32 then ext <- ReadInt 2 ;; Rret (extend res ext)
     else if sel =? 64 then ext <- ReadInt 4 ;; Rret (extend res ext)
     else if sel =? 96 then ext <- ReadInt 7 ;; Rret (extend res ext)
     else Rret res)%reader.

Definition readFieldIndex (lastIndex : Z) (newWay : bool) : R Z :=
  (a <- newWay_and_ReadBit newWay ;;
   if a then
     (* NewWay A *)
     Rret (Go.add lastIndex 1)
   else
     res <- read_res newWay ;;
     (* end marker *)
     if res =? 4095 then Rret (-1)
     else Rret (Go.add (Go.add lastIndex 1) (Go.int_of_uint res)))%reader.

(** The algorithm of the specification (4.1), step by step, on unbounded
    integers. *)
Definition read_bit : R bool := ReadBit.
Definition read_uint (n : nat) : R Z := ReadInt n.

(** "replace those two bits with [ext] shifted left 5": the low five bits of
    [res] stay, bits 5-6 go, and [ext] comes in from bit 5 upwards. *)
Definition replace_bits_5_6 (res ext : Z) : Z := res mod 32 + ext * 2 ^ 5.

Definition raw_offset (new_way : bool) : R Z :=
  fun r =>
    match (if new_way then read_bit r else Some (false, r)) with
    | None => None
    | Some (true, r1) => read_uint 3 r1
    | Some (false, r1) =>
        match read_uint 7 r1 with
        | None => None
        | Some (res, r2) =>
            let bit5 := Z.testbit res 5 in
            let bit6 := Z.testbit res 6 in
            match bit6, bit5 with
            | false, false => Some (res, r2)
            | false, true =>
                option_map (fun '(ext, r3) => (replace_bits_5_6 res ext, r3)) (read_uint 2 r2)
            | true, false =>
                option_map (fun '(ext, r3) => (replace_bits_5_6 res ext, r3)) (read_uint 4 r2)
            | true, true =>
                option_map (fun '(ext, r3) => (replace_bits_5_6 res ext, r3)) (read_uint 7 r2)
            end
        end
    end.

Definition field_index_spec (previous : Z) (new_way : bool) : R Z :=
  fun r =>
    match (if new_way then read_bit r else Some (false, r)) with
    | None => None
    | Some (true, r1) => Some (previous + 1, r1)
    | Some (false, r1) =>
        match raw_offset new_way r1 with
        | None => None
        | Some (res, r2) =>
            if res =? 4095 then Some (-1, r2)
            else Some (previous + 1 + res, r2)
        end
    end.

(** The result of a reader action reduced to Go's [int]. *)
Definition as_int (m : option (Z * BitReader)) : option (Z * BitReader) :=
  option_map (fun '(v, r) => (Go.wrap v, r)) m.

(** The loop of [ApplyUpdate] that gathers the changed indices:
    [for idx = readFieldIndex(reader, idx, newWay); idx != -1;
         idx = readFieldIndex(reader, idx, newWay) { append(..., idx) }].
    Every call of [readFieldIndex] consumes a bit or panics, so the number of
    bits left bounds the number of iterations; [fuel] is that bound. *)
Fixpoint collect_loop (fuel : nat) (idx : Z) (newWay : bool)
    (updatedPropIndices : list Z) : R (list Z) :=
  fun r =>
    match fuel with
    | O => None
    | S fuel' =>
        match readFieldIndex idx newWay r with
        | None => None
        | Some (idx', r') =>
            if idx' =? -1 then Some (updatedPropIndices, r')
            else collect_loop fuel' idx' newWay (updatedPropIndices ++ [idx']) r'
        end
    end.

Definition readFieldIndices (idx : Z) (newWay : bool) (acc : list Z) : R (list Z) :=
  fun r => collect_loop (length r) idx newWay acc r.

(** ** Floating point *)

(** [float64] is the kernel's binary64.  A [float32] is its IEEE-754 bit
    pattern; [float64_of_float32] is the (exact) conversion [float64(x)]. *)
Definition float32 : Type := Z.

Definition float64_of_float32 (b : float32) : float :=
  let sign := Z.testbit b 31 in
  let e := Z.land (Z.shiftr b 23) 255 in
  let m := Z.land b (2 ^ 23 - 1) in
  let mag :=
    if e =? 255 then (if m =? 0 then infinity else nan)
    else if e =? 0 then Z.ldexp (PrimFloat.of_uint63 (Uint63.of_Z m)) (-149)
    else Z.ldexp (PrimFloat.of_uint63 (Uint63.of_Z (m + 2 ^ 23))) (e - 150) in
  if sign then PrimFloat.opp mag else mag.

(** [float64(x)] for [x] of type [int] (round to nearest even). *)
Definition float64_of_int (z : Z) : float :=
  if z =? Go.int_min then PrimFloat.opp (Z.ldexp 1 63)
  else if z <? 0 then PrimFloat.opp (PrimFloat.of_uint63 (Uint63.of_Z (- z)))
  else PrimFloat.of_uint63 (Uint63.of_Z z).

(** ** The data model *)

Module r3.
Record Vector := mkVector { X : float; Y : float; Z : float }.
End r3.

(** Modelled from the spec: [PropertyValue], declared outside the file at
    hand.  The specification lists what it holds (an integer, a 32-bit float,
    a text, a 3-component vector, a sequence of values); the fields and their
    types are those [Bind] reads. *)
#[warnings="-register-all"]
Inductive PropertyValue := mkPropertyValue {
  VectorVal : r3.Vector;
  IntVal : Z;
  ArrayVal : list PropertyValue;
  StringVal : string;
  FloatVal : float32
}.

(** The zero value of a [PropertyValue]. *)
Definition zeroValue : PropertyValue :=
  mkPropertyValue (r3.mkVector 0%float 0%float 0%float) 0 [] EmptyString 0.

(** Modelled from the spec: the flattened property entry, "shared reference to
    immutable metadata (name, declared value type, decode rules) owned by the
    class descriptor".  [prop] stands for the type and decode rules, which only
    the property decoder reads. *)
Record flattenedPropEntry := mkEntry { name : string; prop : N }.

(** Addresses of the variables handed to [Bind]. *)
Definition loc : Type := nat.

(** The pointer types [Bind] asserts, and a [variable interface{}]: a pointer
    of one of these types (possibly nil), or anything else. *)
Inductive ptr_type := PInt | PBool | PFloat32 | PFloat64 | PString | PVector | PArray.

Inductive iface :=
| Pointer (t : ptr_type) (p : option loc)
| NotAPointer.

(** What a bound variable holds. *)
Inductive Value :=
| VInt (z : Z)
| VBool (b : bool)
| VFloat32 (f : float32)
| VFloat64 (f : float)
| VString (s : string)
| VVector (v : r3.Vector)
| VArray (l : list PropertyValue).

Definition type_of (v : Value) : ptr_type :=
  match v with
  | VInt _ => PInt
  | VBool _ => PBool
  | VFloat32 _ => PFloat32
  | VFloat64 _ => PFloat64
  | VString _ => PString
  | VVector _ => PVector
  | VArray _ => PArray
  end.

#[global] Instance ptr_type_eq_dec : EqDecision ptr_type.
Proof. solve_decision. Defined.

(** [propertyValueType] and its constants. *)
Definition propertyValueType : Type := Z.
Definition ValTypeInt : propertyValueType := 0.
Definition ValTypeFloat32 : propertyValueType := 1.
Definition ValTypeFloat64 : propertyValueType := 2.
Definition ValTypeString : propertyValueType := 3.
Definition ValTypeVector : propertyValueType := 4.
Definition ValTypeArray : propertyValueType := 5.
Definition ValTypeBoolInt : propertyValueType := 6.

(** The arms of the [switch valueType] in [Bind]; each holds one closure. *)
Inductive bind_case :=
| CaseInt | CaseBoolInt | CaseFloat32 | CaseFloat64 | CaseString | CaseVector | CaseArray.

(** A [PropertyUpdateHandler], that is a [func(PropertyValue)]: nil, a closure
    of the caller (opaque, known by an identifier: it is taken to return and
    to leave the entity and the reader alone), one of the closures [Bind]
    builds, or the [adder] closure of [initializeBaseline], which captures the
    map [baseline] (by reference: the map's number) and the index [i2]. *)
Inductive PropertyUpdateHandler :=
| nil_handler
| user_handler (id : nat)
| binder (c : bind_case) (variable : iface)
| adder (baseline : nat) (i2 : Z).

(** A [func()]: nil or a closure of the caller. *)
Inductive func :=
| nil_func
| user_func (id : nat).

Record Property := mkProperty {
  entry : flattenedPropEntry;
  updateHandlers : list PropertyUpdateHandler;
  value : PropertyValue
}.

Record Entity := mkEntity {
  serverClass : nat;
  id : Z;
  props : list Property;
  onCreateFinished : list func;
  onDestroy : list func
}.

(** ** Panics, outcomes and the state *)

Inductive panic :=
| DuplicateProperty (n : string)
    (* panic(fmt.Sprintf("More than one property with name %q found", name)) *)
| NilPointer                               (* nil pointer dereference, call of a nil func *)
| IndexOutOfRange (idx : Z) (len : nat)    (* index out of range [idx] with length len *)
| TypeAssertion                            (* interface conversion *)
| ReaderPanic.                             (* the reader or the property decoder *)

Inductive outcome (A : Type) :=
| Ok (a : A)
| Panic (p : panic).
Arguments Ok {A} a.
Arguments Panic {A} p.

Definition Obind {A B} (m : outcome A) (k : A -> outcome B) : outcome B :=
  match m with
  | Ok a => k a
  | Panic p => Panic p
  end.

Declare Scope outcome_scope.
Delimit Scope outcome_scope with outcome.
Notation "x <- m ;; k" := (Obind m (fun x => k))
  (at level 100, m at next level, right associativity) : outcome_scope.

(** Every invocation of a handler or of a lifecycle callback is logged. *)
Inductive Event :=
| HandlerCalled (h : PropertyUpdateHandler) (val : PropertyValue)
| FuncCalled (f : func).

Record State := mkState {
  st_entity : Entity;                       (* the receiver [e] *)
  st_reader : BitReader;                    (* the [*bit.BitReader] *)
  st_heap : gmap loc Value;                 (* the variables bound with [Bind] *)
  st_maps : list (gmap Z PropertyValue);    (* the maps made by [initializeBaseline] *)
  st_log : list Event
}.

Definition M (A : Type) : Type := State -> outcome A * State.

Definition Mret {A} (a : A) : M A := fun s => (Ok a, s).

Definition Mbind {A B} (m : M A) (k : A -> M B) : M B :=
  fun s => match m s with
           | (Ok a, s') => k a s'
           | (Panic p, s') => (Panic p, s')
           end.

Definition Mpanic {A} (p : panic) : M A := fun s => (Panic p, s).

Declare Scope action_scope.
Delimit Scope action_scope with action.
Notation "x <- m ;; k" := (Mbind m (fun x => k))
  (at level 100, m at next level, right associativity) : action_scope.
Notation "m ;;; k" := (Mbind m (fun _ => k))
  (at level 100, right associativity) : action_scope.

Definition get_entity : M Entity := fun s => (Ok (st_entity s), s).

Definition set_entity (e : Entity) (s : State) : State :=
  mkState e (st_reader s) (st_heap s) (st_maps s) (st_log s).
Definition set_reader (r : BitReader) (s : State) : State :=
  mkState (st_entity s) r (st_heap s) (st_maps s) (st_log s).
Definition set_heap (h : gmap loc Value) (s : State) : State :=
  mkState (st_entity s) (st_reader s) h (st_maps s) (st_log s).
Definition set_maps (ms : list (gmap Z PropertyValue)) (s : State) : State :=
  mkState (st_entity s) (st_reader s) (st_heap s) ms (st_log s).
Definition set_log (l : list Event) (s : State) : State :=
  mkState (st_entity s) (st_reader s) (st_heap s) (st_maps s) l.

Definition set_props (ps : list Property) (e : Entity) : Entity :=
  mkEntity (serverClass e) (id e) ps (onCreateFinished e) (onDestroy e).

Definition lift_outcome {A} (o : outcome A) : M A := fun s => (o, s).

(** A reader action run on the state's reader. *)
Definition with_reader {A} (m : R A) : M A :=
  fun s => match m (st_reader s) with
           | Some (a, r') => (Ok a, set_reader r' s)
           | None => (Panic ReaderPanic, s)
           end.

Definition log_event (ev : Event) : M unit :=
  fun s => (Ok tt, set_log (st_log s ++ [ev]) s).

Fixpoint for_each {A} (l : list A) (body : A -> M unit) : M unit :=
  match l with
  | [] => Mret tt
  | x :: l' => (body x ;;; for_each l' body)%action
  end.

(** Dereferencing a [*Property]. *)
Definition load_prop (pe : option nat) : M Property :=
  fun s => match pe with
           | None => (Panic NilPointer, s)
           | Some i =>
               match props (st_entity s) !! i with
               | Some p => (Ok p, s)
               | None => (Panic NilPointer, s)
               end
           end.

Definition store_prop (i : nat) (p : Property) : M unit :=
  fun s => (Ok tt, set_entity (set_props (<[i := p]> (props (st_entity s))) (st_entity s)) s).

(** [&e.props[idx]], with Go's bounds check. *)
Definition index_props (idx : Z) : M nat :=
  fun s =>
    let len := length (props (st_entity s)) in
    if (0 <=? idx) && (idx <? Z.of_nat len) then (Ok (Z.to_nat idx), s)
    else (Panic (IndexOutOfRange idx len), s).

(** ** Property access *)

(** [ServerClass], [ID], [Properties], [Name] and [Value] are the fields
    themselves. *)
Definition Properties (e : Entity) : list Property := props e.
Definition Name (pe : Property) : string := name (entry pe).

(** The loop of [FindProperty]: [i] is the index of the head of [ps] in
    [e.props], [found] the local [prop]. *)
Fixpoint FindProperty_loop (ps : list Property) (i : nat) (n : string)
    (found : option nat) : outcome (option nat) :=
  match ps with
  | [] => Ok found
  | p :: ps' =>
      if String.eqb (name (entry p)) n then
        match found with
        | Some _ => Panic (DuplicateProperty n)
        | None => FindProperty_loop ps' (S i) n (Some i)
        end
      else FindProperty_loop ps' (S i) n found
  end.

Definition FindProperty (e : Entity) (n : string) : outcome (option nat) :=
  FindProperty_loop (props e) 0 n None.

(** ** Handlers *)

Definition OnUpdate (pe : option nat) (handler : PropertyUpdateHandler) : M unit :=
  (p <- load_prop pe ;;
   match pe with
   | Some i =>
       store_prop i (mkProperty (entry p) (updateHandlers p ++ [handler]) (value p))
   | None => Mpanic NilPointer
   end)%action.

(** The [switch valueType] of [Bind]: a value that is none of the constants
    selects no arm. *)
Definition switch_valueType (valueType : propertyValueType) : option bind_case :=
  if valueType =? ValTypeInt then Some CaseInt
  else if valueType =? ValTypeBoolInt then Some CaseBoolInt
  else if valueType =? ValTypeFloat32 then Some CaseFloat32
  else if valueType =? ValTypeFloat64 then Some CaseFloat64
  else if valueType =? ValTypeString then Some CaseString
  else if valueType =? ValTypeVector then Some CaseVector
  else if valueType =? ValTypeArray then Some CaseArray
  else None.

Definition Bind (pe : option nat) (variable : iface) (valueType : propertyValueType)
    : M unit :=
  let binder :=
    match switch_valueType valueType with
    | Some c => binder c variable
    | None => nil_handler
    end in
  OnUpdate pe binder.

Definition BindProperty (n : string) (variable : iface) (valueType : propertyValueType)
    : M unit :=
  (e <- get_entity ;;
   pe <- lift_outcome (FindProperty e n) ;;
   Bind pe variable valueType)%action.

(** The right-hand side of the assignment in each closure of [Bind]. *)
Definition converted (c : bind_case) (val : PropertyValue) : Value :=
  match c with
  | CaseInt => VInt (IntVal val)
  | CaseBoolInt => VBool (IntVal val =? 1)
  | CaseFloat32 => VFloat32 (FloatVal val)
  | CaseFloat64 => VFloat64 (float64_of_float32 (FloatVal val))
  | CaseString => VString (StringVal val)
  | CaseVector => VVector (VectorVal val)
  | CaseArray => VArray (ArrayVal val)
  end.

(** The store through [variable] asserted to be a pointer to the type of
    [v], as in [variable.( *int)]: the assertion first, then the store. *)
Definition assign (variable : iface) (v : Value) : M unit :=
  fun s =>
    match variable with
    | Pointer t p =>
        if decide (t = type_of v) then
          match p with
          | Some l => (Ok tt, set_heap (<[l := v]> (st_heap s)) s)
          | None => (Panic NilPointer, s)
          end
        else (Panic TypeAssertion, s)
    | NotAPointer => (Panic TypeAssertion, s)
    end.

(** [baseline[i2] = val] on the map number [baseline]. *)
Definition map_assign (baseline : nat) (i2 : Z) (val : PropertyValue) : M unit :=
  fun s => (Ok tt, set_maps (alter (fun m => <[i2 := val]> m) baseline (st_maps s)) s).

(** [h(val)]: the call is logged, then the closure runs. *)
Definition call_handler (h : PropertyUpdateHandler) (val : PropertyValue) : M unit :=
  match h with
  | nil_handler => Mpanic NilPointer
  | user_handler _ => log_event (HandlerCalled h val)
  | binder c variable =>
      (log_event (HandlerCalled h val) ;;; assign variable (converted c val))%action
  | adder baseline i2 =>
      (log_event (HandlerCalled h val) ;;; map_assign baseline i2 val)%action
  end.

Definition is_nil (h : PropertyUpdateHandler) : bool :=
  match h with
  | nil_handler => true
  | _ => false
  end.

Definition firePropertyUpdate (pe : option nat) : M unit :=
  (p <- load_prop pe ;;
   for_each (updateHandlers p) (fun h =>
     if is_nil h then Mret tt
     else
       p' <- load_prop pe ;;
       call_handler h (value p')))%action.

(** ** Lifecycle callbacks *)

Definition OnDestroy (delegate : func) : M unit :=
  fun s =>
    let e := st_entity s in
    (Ok tt, set_entity (mkEntity (serverClass e) (id e) (props e) (onCreateFinished e)
                                 (onDestroy e ++ [delegate])) s).

Definition OnCreateFinished (delegate : func) : M unit :=
  fun s =>
    let e := st_entity s in
    (Ok tt, set_entity (mkEntity (serverClass e) (id e) (props e)
                                 (onCreateFinished e ++ [delegate]) (onDestroy e)) s).

(** [f()] *)
Definition call_func (f : func) : M unit :=
  match f with
  | nil_func => Mpanic NilPointer
  | user_func _ => log_event (FuncCalled f)
  end.

Definition Destroy : M unit :=
  (e <- get_entity ;;
   for_each (onDestroy e) call_func)%action.

(** ** Position *)

Definition maxCoordInt : Z := 16384.

Definition coordFromCell (cell cellWidth : Z) (offset : float) : float :=
  PrimFloat.add (float64_of_int (Go.sub (Go.mul cell cellWidth) maxCoordInt)) offset.

(** [e.FindProperty(n).value] *)
Definition FindProperty_value (e : Entity) (n : string) : outcome PropertyValue :=
  (pe <- FindProperty e n ;;
   match pe with
   | Some i =>
       match props e !! i with
       | Some p => Ok (value p)
       | None => Panic NilPointer
       end
   | None => Panic NilPointer
   end)%outcome.

Definition Position (e : Entity) : outcome r3.Vector :=
  (cellbits <- FindProperty_value e "m_cellbits" ;;
   let cellWidth := Go.shl 1 (Go.uint_of_int (IntVal cellbits)) in
   cellX <- FindProperty_value e "m_cellX" ;;
   cellY <- FindProperty_value e "m_cellY" ;;
   cellZ <- FindProperty_value e "m_cellZ" ;;
   offset <- FindProperty_value e "m_vecOrigin" ;;
   Ok (r3.mkVector
         (coordFromCell (IntVal cellX) cellWidth (r3.X (VectorVal offset)))
         (coordFromCell (IntVal cellY) cellWidth (r3.Y (VectorVal offset)))
         (coordFromCell (IntVal cellZ) cellWidth (r3.Z (VectorVal offset)))))%outcome.

(** ** Updates and baselines *)

Section Updates.

(** The property decoder ([propDecoder.decodeProp], declared outside the file
    at hand): it reads the new value of a property from the reader, by the
    rules of the property's entry, and stores it in the property. *)
Variable decode : flattenedPropEntry -> R PropertyValue.

Definition decodeProp (pe : nat) : M unit :=
  (p <- load_prop (Some pe) ;;
   val <- with_reader (decode (entry p)) ;;
   store_prop pe (mkProperty (entry p) (updateHandlers p) val))%action.

(** The slice taken from [updatedPropIndicesPool] has length 0: the pool's
    [New] makes one of length 0, and a slice is [Put] back only after it was
    cut back to length 0. *)
(** The body of the second loop of [ApplyUpdate]. *)
Definition update_prop (idx : Z) : M unit :=
  (pe <- index_props idx ;;
   decodeProp pe ;;;
   firePropertyUpdate (Some pe))%action.

Definition ApplyUpdate : M unit :=
  (newWay <- with_reader ReadBit ;;
   updatedPropIndices <- with_reader (readFieldIndices (-1) newWay []) ;;
   for_each updatedPropIndices update_prop)%action.

(** [make(map[int]PropertyValue)]: the new map's number. *)
Definition make_map : M nat :=
  fun s => (Ok (length (st_maps s)), set_maps (st_maps s ++ [∅]) s).

(** [for i := range e.props { i2 := i; e.props[i].OnUpdate(adder) }] *)
Definition attach_adders (baseline : nat) : M unit :=
  (e <- get_entity ;;
   for_each (seq 0 (length (props e))) (fun i =>
     let i2 := Z.of_nat i in
     OnUpdate (Some i) (adder baseline i2)))%action.

(** [for i := range e.props { e.props[i].updateHandlers = nil }] *)
Definition clear_handlers : M unit :=
  (e <- get_entity ;;
   for_each (seq 0 (length (props e))) (fun i =>
     p <- load_prop (Some i) ;;
     store_prop i (mkProperty (entry p) [] (value p))))%action.

Definition read_map (baseline : nat) : M (gmap Z PropertyValue) :=
  fun s => (Ok (default ∅ (st_maps s !! baseline)), s).

Definition initializeBaseline : M (gmap Z PropertyValue) :=
  (baseline <- make_map ;;
   attach_adders baseline ;;;
   ApplyUpdate ;;;
   clear_handlers ;;;
   read_map baseline)%action.

(** [for idx := range baseline { e.props[idx].value = baseline[idx] }], the
    keys of the map being visited in the order [keys]. *)
Definition applyBaseline_in (keys : list Z) (baseline : gmap Z PropertyValue) : M unit :=
  for_each keys (fun idx =>
    (pe <- index_props idx ;;
     p <- load_prop (Some pe) ;;
     store_prop pe (mkProperty (entry p) (updateHandlers p)
                               (default zeroValue (baseline !! idx))))%action).

(** Go visits the keys of a map in no specified order; [applyBaseline] takes
    the one of [map_to_list]. *)
Definition applyBaseline (baseline : gmap Z PropertyValue) : M unit :=
  applyBaseline_in (map_to_list baseline).*1 baseline.

End Updates.

(** ** Notions the properties are stated with *)

(** The list of changed indices of an update record, in the words of the
    specification (4.1): from [previous], "repeatedly decode the next changed
    property index relative to the previous one, until a sentinel value is
    produced".  [index_run newWay previous r l r'] holds when this yields the
    indices [l] and leaves the reader at [r']. *)
Inductive index_run (newWay : bool) : Z -> BitReader -> list Z -> BitReader -> Prop :=
| run_end previous r r' :
    readFieldIndex previous newWay r = Some (-1, r') ->
    index_run newWay previous r [] r'
| run_next previous r idx r' l r'' :
    readFieldIndex previous newWay r = Some (idx, r') ->
    idx <> -1 ->
    index_run newWay idx r' l r'' ->
    index_run newWay previous r (idx :: l) r''.

(** The other way the decoding of the index list can end: one of the reads
    goes past the end of the reader. *)
Inductive index_run_panics (newWay : bool) : Z -> BitReader -> Prop :=
| panics_here previous r :
    readFieldIndex previous newWay r = None ->
    index_run_panics newWay previous r
| panics_later previous r idx r' :
    readFieldIndex previous newWay r = Some (idx, r') ->
    idx <> -1 ->
    index_run_panics newWay idx r' ->
    index_run_panics newWay previous r.

(** [idx] is an index of [e.props]. *)
Definition in_range (e : Entity) (idx : Z) : Prop :=
  0 <= idx < Z.of_nat (length (props e)).

(** The pointer type each closure of [Bind] asserts. *)
Definition target_type (c : bind_case) : ptr_type :=
  match c with
  | CaseInt => PInt
  | CaseBoolInt => PBool
  | CaseFloat32 => PFloat32
  | CaseFloat64 => PFloat64
  | CaseString => PString
  | CaseVector => PVector
  | CaseArray => PArray
  end.

(** A handler that cannot panic: anything but a binder whose variable is not
    a non-nil pointer of the asserted type. *)
Definition well_typed (h : PropertyUpdateHandler) : bool :=
  match h with
  | binder c (Pointer t (Some _)) => bool_decide (t = target_type c)
  | binder _ _ => false
  | _ => true
  end.

(** The handlers of a list that [firePropertyUpdate] calls, in order. *)
Definition non_nil (hs : list PropertyUpdateHandler) : list PropertyUpdateHandler :=
  List.filter (fun h => negb (is_nil h)) hs.

(** The handler calls the update of property [idx] makes, read off the entity
    as the update left it: the handlers of the property that are not nil, in
    the order of their registration, each with the property's value. *)
Definition update_events (e : Entity) (idx : Z) : list Event :=
  match props e !! Z.to_nat idx with
  | Some p => map (fun h => HandlerCalled h (value p)) (non_nil (updateHandlers p))
  | None => []
  end.

(** Calling the handlers [hs] in order with [val], nil ones skipped. *)
Definition call_handlers (hs : list PropertyUpdateHandler) (val : PropertyValue) : M unit :=
  for_each hs (fun h => if is_nil h then Mret tt else call_handler h val).

(** The property [pe] points to, with one more handler. *)
Definition with_handler (p : Property) (handler : PropertyUpdateHandler) : Property :=
  mkProperty (entry p) (updateHandlers p ++ [handler]) (value p).

(** The closure [Bind] registers for [valueType]. *)
Definition binder_for (variable : iface) (valueType : propertyValueType)
    : PropertyUpdateHandler :=
  match switch_valueType valueType with
  | Some c => binder c variable
  | None => nil_handler
  end.

(** The kinds [Bind] supports and, in the words of the specification (4.3),
    what each writes to the bound variable: "Int -> integer; BoolInt -> boolean
    (true iff integer value equals 1); Float32 -> 32-bit float as-is; Float64 ->
    32-bit float widened to 64-bit; String -> text; Vector -> 3-component
    vector; Array -> sequence of PropertyValue". *)
Definition supported_kinds : list propertyValueType :=
  [ValTypeInt; ValTypeBoolInt; ValTypeFloat32; ValTypeFloat64; ValTypeString;
   ValTypeVector; ValTypeArray].

Definition written_value (kind : propertyValueType) (val : PropertyValue) : Value :=
  if decide (kind = ValTypeInt) then VInt (IntVal val)
  else if decide (kind = ValTypeBoolInt) then VBool (bool_decide (IntVal val = 1))
  else if decide (kind = ValTypeFloat32) then VFloat32 (FloatVal val)
  else if decide (kind = ValTypeFloat64) then VFloat64 (float64_of_float32 (FloatVal val))
  else if decide (kind = ValTypeString) then VString (StringVal val)
  else if decide (kind = ValTypeVector) then VVector (VectorVal val)
  else VArray (ArrayVal val).

(** A variable of the shape the kind asks for, at address [l]. *)
Definition variable_of_kind (kind : propertyValueType) (l : loc) : iface :=
  Pointer (type_of (written_value kind zeroValue)) (Some l).

(** The map an [adder] closure writes to. *)
Definition adder_map (h : PropertyUpdateHandler) : option nat :=
  match h with
  | adder baseline _ => Some baseline
  | _ => None
  end.

(** Every [adder] closure registered on the entity refers to a map that
    exists: a closure cannot capture a map that has not been made yet. *)
Definition adders_allocated (s : State) : Prop :=
  Forall (fun p =>
    Forall (fun h => forall m, adder_map h = Some m -> (m < length (st_maps s))%nat)
           (updateHandlers p))
    (props (st_entity s)).

(** The handler lists while [initializeBaseline] runs [ApplyUpdate]: the last
    handler of property [i] is the adder for [i] into the map [m], and no
    handler before it writes to that map. *)
Definition adders_attached (m : nat) (ps : list Property) : Prop :=
  forall i p, ps !! i = Some p ->
    exists hs, updateHandlers p = hs ++ [adder m (Z.of_nat i)] /\
               Forall (fun h => adder_map h <> Some m) hs.

(** An entity as constructed: no handler is registered on any property. *)
Definition no_handlers (e : Entity) : Prop :=
  Forall (fun p => updateHandlers p = []) (props e).

(** The state with property [i] of the entity replaced. *)
Definition with_prop (i : nat) (p : Property) (s : State) : State :=
  set_entity (set_props (<[i := p]> (props (st_entity s))) (st_entity s)) s.


(** How many properties of the entity bear the name [n]. *)
Definition count_name (e : Entity) (n : string) : nat :=
  count_occ String.string_dec (map Name (props e)) n.

(** ** Writing an index list *)

(** The sources hold the decoder of the index list only.  To say what the
    decoder can express, here is the writer that mirrors it: [bits_of n v] is
    what [ReadInt n] reads as [v]; [encode_delta] writes one offset in the
    shortest form [readFieldIndex] accepts; [end_marker] is the form of
    0xFFF; [encode_indices] writes a whole list. *)
Fixpoint bits_of (n : nat) (v : Z) : list bool :=
  match n with
  | O => []
  | S n' => Z.odd v :: bits_of n' (Z.div2 v)
  end.

Definition encode_offset (d : Z) : list bool :=
  if d <? 32 then bits_of 7 d
  else if d <? 128 then bits_of 7 (d mod 32 + 32) ++ bits_of 2 (d / 32)
  else if d <? 512 then bits_of 7 (d mod 32 + 64) ++ bits_of 4 (d / 32)
  else bits_of 7 (d mod 32 + 96) ++ bits_of 7 (d / 32).

Definition encode_delta (newWay : bool) (d : Z) : list bool :=
  if newWay then
    if d =? 0 then [true]
    else if d <? 8 then [false; true] ++ bits_of 3 d
    else [false; false] ++ encode_offset d
  else encode_offset d.

Definition end_marker (newWay : bool) : list bool :=
  (if newWay then [false; false] else []) ++ repeat true 14.

Fixpoint encode_indices (newWay : bool) (previous : Z) (l : list Z) : list bool :=
  match l with
  | [] => end_marker newWay
  | idx :: l' => encode_delta newWay (idx - previous - 1) ++ encode_indices newWay idx l'
  end.

(** A list of indices that goes up from [previous] in steps of at most 4095
    and stays within [int]. *)
Fixpoint steps_from (previous : Z) (l : list Z) : Prop :=
  match l with
  | [] => True
  | idx :: l' => previous < idx <= previous + 4095 /\ idx <= Go.int_max /\ steps_from idx l'
  end.

(** ** Sample data *)

(** A decoder for the examples: the entry's [prop] is the width in bits of
    an integer property. *)
Definition int_value (v : Z) : PropertyValue :=
  mkPropertyValue (r3.mkVector 0%float 0%float 0%float) v [] EmptyString 0.

Definition sample_decode (en : flattenedPropEntry) : R PropertyValue :=
  (v <- ReadInt (N.to_nat (prop en)) ;; Rret (int_value v))%reader.

Definition sample_prop (n : string) (width : N) (hs : list PropertyUpdateHandler)
    : Property :=
  mkProperty (mkEntry n width) hs zeroValue.

Definition sample_state (ps : list Property) (r : BitReader) : State :=
  mkState (mkEntity 0 1 ps [] []) r ∅ [] [].

(** Three properties with callers' handlers on the first and the last. *)
Definition observed_props : list Property :=
  [sample_prop "a" 2 [user_handler 1; nil_handler; user_handler 2];
   sample_prop "b" 3 [];
   sample_prop "c" 1 [user_handler 3]].

(** The same layout as constructed, with no handler. *)
Definition fresh_props : list Property :=
  [sample_prop "a" 2 []; sample_prop "b" 3 []; sample_prop "c" 1 []].

(** An update record: the [newWay] bit set; index 0 by the one-bit shortcut;
    index 2 as offset 1 in three bits; the end marker 0xFFF; then the values
    of property 0 (two bits, the integer 2) and of property 2 (one bit, the
    integer 1). *)
Definition index_bits : BitReader :=
  [true] ++ [false; true; true; false; false]
  ++ [false; false] ++ repeat true 7 ++ repeat true 7.

Definition value_bits : BitReader := [false; true] ++ [true].

Definition sample_record : BitReader := [true] ++ index_bits ++ value_bits.

(** A property list with a name borne twice. *)
Definition duplicate_props : list Property :=
  [sample_prop "a" 2 []; sample_prop "b" 3 []; sample_prop "a" 1 []].

(** An entity with the five position properties: exponent 5, cell
    (10, 0, 0), offset (1.5, 0, 0). *)
Definition position_props : list Property :=
  [mkProperty (mkEntry "m_cellbits" 0) [] (int_value 5);
   mkProperty (mkEntry "m_cellX" 0) [] (int_value 10);
   mkProperty (mkEntry "m_cellY" 0) [] (int_value 0);
   mkProperty (mkEntry "m_cellZ" 0) [] (int_value 0);
   mkProperty (mkEntry "m_vecOrigin" 0) []
     (mkPropertyValue (r3.mkVector 1.5%float 0%float 0%float) 0 [] EmptyString 0)].

Definition position_entity : Entity := mkEntity 0 1 position_props [] [].

(** The same entity with the exponent 64. *)
Definition degenerate_entity : Entity :=
  mkEntity 0 1
    (<[0%nat := mkProperty (mkEntry "m_cellbits" 0) [] (int_value 64)]> position_props)
    [] [].

(** ** Properties of the integers and of the reader *)

Lemma wrap_small z : Go.is_int z -> Go.wrap z = z.
Proof.
  unfold Go.is_int, Go.int_min, Go.int_max, Go.wrap. intros Hz.
  rewrite Z.mod_small; lia.
Qed.

Lemma wrap_wrap_add a b : Go.wrap (Go.wrap a + b) = Go.wrap (a + b).
Proof.
  unfold Go.wrap.
  replace ((a + 2 ^ 63) mod 2 ^ 64 - 2 ^ 63 + b + 2 ^ 63)
    with ((a + 2 ^ 63) mod 2 ^ 64 + b) by lia.
  rewrite Zplus_mod_idemp_l. do 2 f_equal. lia.
Qed.

Lemma wrap_add_wrap a b : Go.wrap (a + Go.wrap b) = Go.wrap (a + b).
Proof. rewrite Z.add_comm, wrap_wrap_add. f_equal. lia. Qed.

Lemma ReadInt_range n r v r' :
  ReadInt n r = Some (v, r') -> 0 <= v < 2 ^ Z.of_nat n.
Proof.
  revert r v r'. induction n as [|n IH]; intros r v r' H.
  - injection H as <- _. simpl. lia.
  - simpl in H. destruct r as [|b r]; [discriminate|].
    destruct (ReadInt n r) as [[w r'']|] eqn:E; [|discriminate].
    injection H as <- _. apply IH in E.
    rewrite Nat2Z.inj_succ, Z.pow_succ_r by lia.
    destruct b; simpl; lia.
Qed.

Lemma ReadInt_length n r v r' :
  ReadInt n r = Some (v, r') -> length r = (n + length r')%nat.
Proof.
  revert r v r'. induction n as [|n IH]; intros r v r' H.
  - injection H as _ <-. reflexivity.
  - simpl in H. destruct r as [|b r]; [discriminate|].
    destruct (ReadInt n r) as [[w r'']|] eqn:E; [|discriminate].
    injection H as _ <-. apply IH in E. simpl. lia.
Qed.

(** A property of the integers below [n] follows from its check on each. *)
Lemma forallb_below (n : nat) (P : Z -> bool) :
  forallb P (map Z.of_nat (seq 0 n)) = true ->
  forall z, 0 <= z < Z.of_nat n -> P z = true.
Proof.
  intros H z Hz. rewrite forallb_forall in H. apply H.
  apply in_map_iff. exists (Z.to_nat z). split; [lia|].
  apply in_seq. lia.
Qed.

Lemma extend_replace res ext :
  0 <= res < 128 -> 0 <= ext < 128 -> extend res ext = replace_bits_5_6 res ext.
Proof.
  intros Hres Hext.
  pose proof (forallb_below 128
    (fun a => forallb (fun b => extend a b =? replace_bits_5_6 a b)
                      (map Z.of_nat (seq 0 128)))) as H.
  specialize (H ltac:(vm_compute; reflexivity) res Hres). cbv beta in H.
  pose proof (forallb_below 128 _ H ext Hext) as H'. cbv beta in H'. lia.
Qed.

(** The [switch res & (32 | 64)] of the code selects by bits 5 and 6. *)
Lemma selector_bits res :
  0 <= res < 128 ->
  (Z.land res (Z.lor 32 64) =? 32) = (Z.testbit res 5 && negb (Z.testbit res 6)) /\
  (Z.land res (Z.lor 32 64) =? 64) = (negb (Z.testbit res 5) && Z.testbit res 6) /\
  (Z.land res (Z.lor 32 64) =? 96) = (Z.testbit res 5 && Z.testbit res 6).
Proof.
  intros Hres.
  pose proof (forallb_below 128
    (fun a => eqb (Z.land a (Z.lor 32 64) =? 32) (Z.testbit a 5 && negb (Z.testbit a 6))
              && eqb (Z.land a (Z.lor 32 64) =? 64) (negb (Z.testbit a 5) && Z.testbit a 6)
              && eqb (Z.land a (Z.lor 32 64) =? 96) (Z.testbit a 5 && Z.testbit a 6))%bool) as H.
  specialize (H ltac:(vm_compute; reflexivity) res Hres). cbv beta in H.
  apply andb_prop in H as [H H3]. apply andb_prop in H as [H1 H2].
  apply eqb_prop in H1, H2, H3. auto.
Qed.

(** The raw offset the code computes is the one of the specification. *)
Lemma read_res_body r1 :
  (res <- ReadInt 7 ;;
   let sel := Z.land res (Z.lor 32 64) in
   if sel =? 32 then ext <- ReadInt 2 ;; Rret (extend res ext)
   else if sel =? 64 then ext <- ReadInt 4 ;; Rret (extend res ext)
   else if sel =? 96 then ext <- ReadInt 7 ;; Rret (extend res ext)
   else Rret res)%reader r1
  = match read_uint 7 r1 with
    | None => None
    | Some (res, r2) =>
        match Z.testbit res 6, Z.testbit res 5 with
        | false, false => Some (res, r2)
        | false, true =>
            option_map (fun '(ext, r3) => (replace_bits_5_6 res ext, r3)) (read_uint 2 r2)
        | true, false =>
            option_map (fun '(ext, r3) => (replace_bits_5_6 res ext, r3)) (read_uint 4 r2)
        | true, true =>
            option_map (fun '(ext, r3) => (replace_bits_5_6 res ext, r3)) (read_uint 7 r2)
        end
    end.
Proof.
  unfold Rbind, read_uint, Rret.
  destruct (ReadInt 7 r1) as [[res r2]|] eqn:E7; [|reflexivity].
  pose proof (ReadInt_range _ _ _ _ E7) as Hres.
  change (2 ^ Z.of_nat 7) with 128 in Hres.
  destruct (selector_bits res Hres) as (S32 & S64 & S96).
  cbv zeta. rewrite S32, S64, S96.
  assert (Hext : forall k, (k <= 7)%nat ->
            (match ReadInt k r2 with
             | Some (a, r') => Some (extend res a, r')
             | None => None
             end)
            = option_map (fun '(ext, r3) => (replace_bits_5_6 res ext, r3)) (ReadInt k r2)).
  { intros k Hk. destruct (ReadInt k r2) as [[ext r3]|] eqn:Ek; [|reflexivity].
    pose proof (ReadInt_range _ _ _ _ Ek) as He.
    assert (2 ^ Z.of_nat k <= 2 ^ 7) by (apply Z.pow_le_mono_r; lia).
    cbn [option_map]. rewrite extend_replace; [reflexivity|lia|lia]. }
  destruct (Z.testbit res 5), (Z.testbit res 6); cbn [andb negb]; try reflexivity;
    apply Hext; lia.
Qed.

Lemma read_res_raw_offset newWay r : read_res newWay r = raw_offset newWay r.
Proof.
  unfold read_res, raw_offset, newWay_and_ReadBit, read_bit.
  unfold Rbind at 1.
  destruct newWay.
  - destruct (ReadBit r) as [[[] r1]|]; [reflexivity| |reflexivity].
    apply read_res_body.
  - unfold Rret at 1. apply read_res_body.
Qed.

Lemma raw_offset_range new_way r res r' :
  raw_offset new_way r = Some (res, r') -> 0 <= res <= 4095.
Proof.
  unfold raw_offset, read_bit, read_uint. intros H.
  assert (Hext : forall k a rr x rr', (k <= 7)%nat -> 0 <= a < 128 ->
     option_map (fun '(ext, r3) => (replace_bits_5_6 a ext, r3)) (ReadInt k rr) = Some (x, rr') ->
     0 <= x <= 4095).
  { intros k a rr x rr' Hk Ha Hx.
    destruct (ReadInt k rr) as [[ext r3]|] eqn:Ek; [|discriminate].
    injection Hx as <- _. pose proof (ReadInt_range _ _ _ _ Ek) as He.
    assert (2 ^ Z.of_nat k <= 2 ^ 7) by (apply Z.pow_le_mono_r; lia).
    unfold replace_bits_5_6. pose proof (Z.mod_pos_bound a 32). lia. }
  destruct (if new_way then ReadBit r else Some (false, r)) as [[[] r1]|]; [| |discriminate].
  - apply ReadInt_range in H. simpl in H. lia.
  - destruct (ReadInt 7 r1) as [[a r2]|] eqn:E7; [|discriminate].
    pose proof (ReadInt_range _ _ _ _ E7) as Ha. change (2 ^ Z.of_nat 7) with 128 in Ha.
    destruct (Z.testbit a 6), (Z.testbit a 5);
      try (eapply Hext in H; [exact H|lia|lia]).
    injection H as <- _. lia.
Qed.

(** The code's result is the specification's, reduced to [int]. *)
Lemma readFieldIndex_as_int r lastIndex newWay :
  readFieldIndex lastIndex newWay r = as_int (field_index_spec lastIndex newWay r).
Proof.
  assert (Hres : forall r1,
    (res <- read_res newWay ;;
     if res =? 4095 then Rret (-1)
     else Rret (Go.add (Go.add lastIndex 1) (Go.int_of_uint res)))%reader r1
    = as_int match raw_offset newWay r1 with
             | None => None
             | Some (res, r2) =>
                 if res =? 4095 then Some (-1, r2) else Some (lastIndex + 1 + res, r2)
             end).
  { intros r1. unfold Rbind. rewrite read_res_raw_offset.
    destruct (raw_offset newWay r1) as [[res r2]|]; [|reflexivity].
    destruct (res =? 4095); [reflexivity|].
    unfold as_int, Rret, Go.add, Go.int_of_uint. cbn [option_map].
    rewrite wrap_wrap_add, wrap_add_wrap. reflexivity. }
  unfold readFieldIndex, field_index_spec, newWay_and_ReadBit, read_bit.
  unfold Rbind at 1.
  destruct newWay.
  - destruct (ReadBit r) as [[[] r1]|]; [reflexivity| |reflexivity]. apply Hres.
  - unfold Rret at 1. apply Hres.
Qed.

(** ** The run of changed indices *)

Lemma ReadBit_length r b r' : ReadBit r = Some (b, r') -> length r = S (length r').
Proof. destruct r; [discriminate|]. intros [= _ <-]. reflexivity. Qed.

Lemma raw_offset_length new_way r res r' :
  raw_offset new_way r = Some (res, r') -> (length r' < length r)%nat.
Proof.
  unfold raw_offset, read_bit, read_uint. intros H.
  assert (Hext : forall k a rr x rr',
     option_map (fun '(ext, r3) => (replace_bits_5_6 a ext, r3)) (ReadInt k rr) = Some (x, rr') ->
     (length rr' <= length rr)%nat).
  { intros k a rr x rr' Hx.
    destruct (ReadInt k rr) as [[ext r3]|] eqn:Ek; [|discriminate].
    injection Hx as _ <-. apply ReadInt_length in Ek. lia. }
  assert (Hr1 : forall r1, 
    match (if new_way then ReadBit r else Some (false, r)) with
    | Some (_, r1') => r1' = r1 -> (length r1 <= length r)%nat
    | None => True
    end).
  { intros r1. destruct new_way; [|intros <-; lia].
    destruct (ReadBit r) as [[b r1']|] eqn:E; [|exact I].
    intros <-. apply ReadBit_length in E. lia. }
  destruct (if new_way then ReadBit r else Some (false, r)) as [[[] r1]|]; [| |discriminate];
    specialize (Hr1 r1 eq_refl).
  - apply ReadInt_length in H. lia.
  - destruct (ReadInt 7 r1) as [[a r2]|] eqn:E7; [|discriminate].
    apply ReadInt_length in E7.
    destruct (Z.testbit a 6), (Z.testbit a 5); try (apply Hext in H; lia).
    injection H as _ <-. lia.
Qed.

(** What one step of the decoder yields, in unbounded integers. *)
Lemma field_index_spec_step previous new_way r v r' :
  field_index_spec previous new_way r = Some (v, r') ->
  (v = -1 \/ previous < v <= previous + 4095) /\ (length r' < length r)%nat.
Proof.
  unfold field_index_spec, read_bit. intros H.
  assert (Hr1 : forall r1,
    match (if new_way then ReadBit r else Some (false, r)) with
    | Some (b, r1') => r1' = r1 -> (length r1 <= length r)%nat /\
                                   (b = true -> length r1 < length r)%nat
    | None => True
    end).
  { intros r1. destruct new_way; [|intros <-; split; [lia|discriminate]].
    destruct (ReadBit r) as [[b r1']|] eqn:E; [|exact I].
    intros <-. apply ReadBit_length in E. lia. }
  destruct (if new_way then ReadBit r else Some (false, r)) as [[[] r1]|]; [| |discriminate];
    destruct (Hr1 r1 eq_refl) as [Hle Hlt].
  - injection H as <- <-. split; [lia|auto].
  - destruct (raw_offset new_way r1) as [[res r2]|] eqn:Eo; [|discriminate].
    pose proof (raw_offset_range _ _ _ _ Eo) as Hres.
    apply raw_offset_length in Eo.
    destruct (Z.eqb_spec res 4095); injection H as <- <-; split; lia.
Qed.

(** One step of the decoder from an index that leaves room below the largest
    [int]: the end marker, or a larger index at most 4095 further; and at
    least one bit is consumed. *)
Lemma readFieldIndex_step previous newWay r idx r' :
  readFieldIndex previous newWay r = Some (idx, r') ->
  -1 <= previous -> previous + 4096 <= Go.int_max ->
  (idx = -1 \/ previous < idx <= previous + 4095) /\ (length r' < length r)%nat.
Proof.
  rewrite readFieldIndex_as_int. unfold as_int. intros H Hlo Hhi.
  destruct (field_index_spec previous newWay r) as [[v r1]|] eqn:E; [|discriminate].
  injection H as <- <-. apply field_index_spec_step in E as [Hv Hlen].
  rewrite wrap_small; [auto|].
  unfold Go.is_int, Go.int_min, Go.int_max in *. lia.
Qed.

Lemma readFieldIndex_consumes previous newWay r idx r' :
  readFieldIndex previous newWay r = Some (idx, r') -> (length r' < length r)%nat.
Proof.
  rewrite readFieldIndex_as_int. unfold as_int. intros H.
  destruct (field_index_spec previous newWay r) as [[v r1]|] eqn:E; [|discriminate].
  injection H as _ <-. apply field_index_spec_step in E as [_ Hlen]. exact Hlen.
Qed.

(** C1. [readFieldIndex] follows the algorithm of the specification: on every
    reader and for every previous index its result, and the reader it leaves,
    are those of [field_index_spec], the sum reduced to Go's [int]; whenever
    the previous index leaves room for the largest offset below the largest
    [int], they are those of [field_index_spec] exactly. *)
Theorem readFieldIndex_follows_spec (r : BitReader) (lastIndex : Z) (newWay : bool) :
  readFieldIndex lastIndex newWay r = as_int (field_index_spec lastIndex newWay r) /\
  (Go.int_min <= lastIndex -> lastIndex + 4096 <= Go.int_max ->
   readFieldIndex lastIndex newWay r = field_index_spec lastIndex newWay r).
Proof.
  split; [apply readFieldIndex_as_int|].
  intros Hlo Hhi. rewrite readFieldIndex_as_int. unfold as_int.
  destruct (field_index_spec lastIndex newWay r) as [[v r']|] eqn:E; [|reflexivity].
  apply field_index_spec_step in E as [Hv _]. cbn [option_map].
  rewrite wrap_small; [reflexivity|].
  unfold Go.is_int, Go.int_min, Go.int_max in *. lia.
Qed.

(** The loop of [ApplyUpdate] computes the run, whatever fuel it is given
    beyond the number of bits left. *)
Lemma collect_loop_run fuel previous newWay acc r l r' :
  (length r <= fuel)%nat ->
  collect_loop fuel previous newWay acc r = Some (l, r') <->
  exists l', l = acc ++ l' /\ index_run newWay previous r l' r'.
Proof.
  revert previous acc r. induction fuel as [|fuel IH]; intros previous acc r Hfuel.
  - cbn. split; [discriminate|]. intros (l' & _ & Hrun).
    destruct r; [|cbn in Hfuel; lia].
    inversion Hrun as [? ? ? H|? ? ? ? ? ? H]; subst;
      apply readFieldIndex_consumes in H; cbn in H; lia.
  - cbn [collect_loop]. split.
    + destruct (readFieldIndex previous newWay r) as [[idx r1]|] eqn:E; [|discriminate].
      pose proof (readFieldIndex_consumes _ _ _ _ _ E) as Hlen.
      destruct (Z.eqb_spec idx (-1)) as [->|Hne].
      * intros [= <- <-]. exists []. rewrite app_nil_r. split; [reflexivity|].
        apply run_end, E.
      * intros H. apply IH in H; [|lia]. destruct H as (l' & -> & Hrun).
        exists (idx :: l'). rewrite <- app_assoc. split; [reflexivity|].
        eapply run_next; eassumption.
    + intros (l' & -> & Hrun).
      inversion Hrun as [? ? ? H|? ? idx r1 l1 ? H Hne Hrest]; subst; rewrite H.
      * cbn. rewrite app_nil_r. reflexivity.
      * destruct (Z.eqb_spec idx (-1)); [contradiction|].
        apply readFieldIndex_consumes in H.
        apply IH; [lia|]. exists l1. rewrite <- app_assoc. auto.
Qed.

(** The loop fails only when a read goes past the end of the reader: it never
    stops for want of fuel. *)
Lemma collect_loop_panics fuel previous newWay acc r :
  (length r <= fuel)%nat ->
  collect_loop fuel previous newWay acc r = None ->
  index_run_panics newWay previous r.
Proof.
  revert previous acc r. induction fuel as [|fuel IH]; intros previous acc r Hfuel H.
  - apply panics_here. destruct r; [|cbn in Hfuel; lia].
    destruct (readFieldIndex previous newWay []) as [[idx r']|] eqn:E; [|reflexivity].
    apply readFieldIndex_consumes in E. cbn in E. lia.
  - cbn [collect_loop] in H.
    destruct (readFieldIndex previous newWay r) as [[idx r']|] eqn:E;
      [|apply panics_here, E].
    destruct (Z.eqb_spec idx (-1)); [discriminate|].
    eapply panics_later; [exact E|assumption|].
    apply (IH idx (acc ++ [idx])); [|exact H].
    apply readFieldIndex_consumes in E. lia.
Qed.

Lemma readFieldIndices_run newWay r l r' :
  readFieldIndices (-1) newWay [] r = Some (l, r') <-> index_run newWay (-1) r l r'.
Proof.
  unfold readFieldIndices. rewrite collect_loop_run by lia. cbn [app].
  split; [intros (l' & -> & H); exact H|eauto].
Qed.

(** A run that cannot overflow [int] is strictly increasing. *)
Lemma index_run_increasing newWay previous r l r' :
  index_run newWay previous r l r' ->
  -1 <= previous ->
  previous + 4095 * Z.of_nat (length r) < Go.int_max ->
  StronglySorted Z.lt l /\ Forall (fun idx => previous < idx) l.
Proof.
  induction 1 as [previous r r' H|previous r idx r1 l r2 H Hne Hrun IH];
    intros Hlo Hhi.
  - split; constructor.
  - assert (Hlen : (length r1 < length r)%nat) by (eapply readFieldIndex_consumes, H).
    assert (Hroom : previous + 4096 <= Go.int_max) by lia.
    destruct (readFieldIndex_step _ _ _ _ _ H Hlo Hroom) as [[?|Hidx] _]; [contradiction|].
    destruct IH as [Hs Hall]; [lia|lia|].
    split.
    + constructor; [exact Hs|exact Hall].
    + constructor; [lia|]. eapply Forall_impl; [exact Hall|]. cbn. lia.
Qed.

(** ** Looking a property up *)

Lemma FindProperty_loop_found ps i n j :
  FindProperty_loop ps i n (Some j)
  = if decide (count_occ String.string_dec (map Name ps) n = 0%nat)
    then Ok (Some j) else Panic (DuplicateProperty n).
Proof.
  revert i. induction ps as [|p ps IH]; intros i; [reflexivity|].
  cbn [FindProperty_loop map count_occ]. change (Name p) with (name (entry p)).
  destruct (String.string_dec (name (entry p)) n) as [E|E].
  - rewrite E, String.eqb_refl. reflexivity.
  - apply String.eqb_neq in E as ->. apply IH.
Qed.

Lemma FindProperty_loop_none ps i n :
  match count_occ String.string_dec (map Name ps) n with
  | O => FindProperty_loop ps i n None = Ok None
  | S O => exists k p, ps !! k = Some p /\ Name p = n /\
                       FindProperty_loop ps i n None = Ok (Some (i + k)%nat)
  | _ => FindProperty_loop ps i n None = Panic (DuplicateProperty n)
  end.
Proof.
  revert i. induction ps as [|p ps IH]; intros i; [reflexivity|].
  cbn [FindProperty_loop map count_occ]. change (Name p) with (name (entry p)).
  destruct (String.string_dec (name (entry p)) n) as [E|E].
  - rewrite E, String.eqb_refl.
    rewrite FindProperty_loop_found.
    destruct (count_occ String.string_dec (map Name ps) n) as [|c].
    + exists 0%nat, p. rewrite Nat.add_0_r. auto.
    + reflexivity.
  - apply String.eqb_neq in E as ->.
    specialize (IH (S i)).
    destruct (count_occ String.string_dec (map Name ps) n) as [|[|c]]; [exact IH| |exact IH].
    destruct IH as (k & q & Hk & Hq & ->).
    exists (S k), q. repeat split; [exact Hk|exact Hq|]. do 2 f_equal. lia.
Qed.

(** C5. [FindProperty] returns the property that bears the name when exactly
    one does, nil when none does, and panics with the duplicate-name message
    when two or more do, wherever they stand in the property list. *)
Theorem FindProperty_cases (e : Entity) (n : string) :
  (count_name e n = 1%nat ->
     exists i p, FindProperty e n = Ok (Some i) /\
                 props e !! i = Some p /\ Name p = n) /\
  (count_name e n = 0%nat -> FindProperty e n = Ok None) /\
  ((2 <= count_name e n)%nat -> FindProperty e n = Panic (DuplicateProperty n)).
Proof.
  unfold count_name, FindProperty.
  pose proof (FindProperty_loop_none (props e) 0 n) as H.
  destruct (count_occ String.string_dec (map Name (props e)) n) as [|[|c]].
  - split; [discriminate|]. split; [auto|lia].
  - split; [|split; [discriminate|lia]].
    intros _. destruct H as (k & p & Hk & Hp & ->). exists k, p. auto.
  - split; [discriminate|]. split; [discriminate|auto].
Qed.

(** ** The monad *)

Lemma for_each_app {A} (l1 l2 : list A) (body : A -> M unit) s :
  for_each (l1 ++ l2) body s
  = match for_each l1 body s with
    | (Ok _, s1) => for_each l2 body s1
    | (Panic p, s1) => (Panic p, s1)
    end.
Proof.
  revert s. induction l1 as [|x l1 IH]; intros s; [reflexivity|].
  cbn [for_each app]. unfold Mbind.
  destruct (body x s) as [[[]|p] s1]; [apply IH|reflexivity].
Qed.

(** Two loop bodies that agree on the states satisfying an invariant of the
    second give the same loop. *)
Lemma for_each_ext {A} (I : State -> Prop) (l : list A) (f g : A -> M unit) :
  (forall x s, I s -> f x s = g x s) ->
  (forall x s o s', I s -> g x s = (o, s') -> I s') ->
  forall s, I s -> for_each l f s = for_each l g s.
Proof.
  intros Hfg Hinv. induction l as [|x l IH]; intros s Hs; [reflexivity|].
  cbn [for_each]. unfold Mbind. rewrite (Hfg x s Hs).
  destruct (g x s) as [[[]|p] s1] eqn:E; [|reflexivity].
  apply IH. eapply Hinv; eassumption.
Qed.

(** ** Handlers *)

Lemma type_of_converted c val : type_of (converted c val) = target_type c.
Proof. destruct c; reflexivity. Qed.

Lemma call_handler_frame h val s o s' :
  call_handler h val s = (o, s') ->
  st_entity s' = st_entity s /\ st_reader s' = st_reader s.
Proof.
  unfold call_handler, Mbind, log_event, assign, map_assign, Mpanic, Mret.
  destruct h as [|u|c [t [l|]|]|m i2]; cbn;
    try (intros [= <- <-]; auto).
  all: destruct (decide (t = type_of (converted c val))); intros [= <- <-]; auto.
Qed.

Lemma call_handlers_frame hs val s o s' :
  call_handlers hs val s = (o, s') ->
  st_entity s' = st_entity s /\ st_reader s' = st_reader s.
Proof.
  unfold call_handlers. revert s. induction hs as [|h hs IH]; intros s.
  - intros [= <- <-]. auto.
  - cbn [for_each]. unfold Mbind.
    destruct (is_nil h).
    + cbn. intros H. apply IH in H. exact H.
    + destruct (call_handler h val s) as [[[]|p] s1] eqn:E;
        apply call_handler_frame in E as [E1 E2].
      * intros H. apply IH in H as [H1 H2]. split; congruence.
      * intros [= <- <-]. auto.
Qed.

(** [firePropertyUpdate] reads [pe.value] at every call; no handler changes
    it, so every handler receives the same value. *)
Lemma firePropertyUpdate_call_handlers i p s :
  props (st_entity s) !! i = Some p ->
  firePropertyUpdate (Some i) s = call_handlers (updateHandlers p) (value p) s.
Proof.
  intros Hp. unfold firePropertyUpdate, Mbind at 1. unfold load_prop at 1. rewrite Hp.
  unfold call_handlers.
  apply (for_each_ext (fun s => props (st_entity s) !! i = Some p)); [| |exact Hp].
  - intros h s0 H0. destruct (is_nil h); [reflexivity|].
    unfold Mbind, load_prop. rewrite H0. reflexivity.
  - intros h s0 o s1 H0. destruct (is_nil h).
    + intros [= <- <-]. exact H0.
    + intros E. apply call_handler_frame in E as [-> _]. exact H0.
Qed.

Lemma call_handler_well_typed h val s :
  is_nil h = false -> well_typed h = true ->
  exists s', call_handler h val s = (Ok tt, s').
Proof.
  unfold call_handler, Mbind, log_event, assign, map_assign, Mret.
  destruct h as [|u|c [t [l|]|]|m i2]; cbn; try discriminate; eauto.
  intros _ Ht. apply bool_decide_eq_true in Ht. subst t.
  rewrite type_of_converted. destruct (decide _); [eauto|congruence].
Qed.

Lemma call_handlers_well_typed hs val s :
  forallb well_typed hs = true ->
  exists s', call_handlers hs val s = (Ok tt, s').
Proof.
  unfold call_handlers. revert s. induction hs as [|h hs IH]; intros s Hhs.
  - eexists. reflexivity.
  - cbn [forallb] in Hhs. apply andb_prop in Hhs as [Hh Hhs].
    cbn [for_each]. unfold Mbind.
    destruct (is_nil h) eqn:Hn.
    + cbn. apply IH, Hhs.
    + destruct (call_handler_well_typed h val s Hn Hh) as [s1 ->]. apply IH, Hhs.
Qed.

Lemma call_handlers_log hs val s s' :
  call_handlers hs val s = (Ok tt, s') ->
  st_log s' = st_log s ++ map (fun h => HandlerCalled h val) (non_nil hs).
Proof.
  unfold call_handlers, non_nil. revert s. induction hs as [|h hs IH]; intros s.
  - intros [= <-]. cbn. rewrite app_nil_r. reflexivity.
  - cbn [for_each List.filter]. unfold Mbind.
    destruct (is_nil h) eqn:Hn; cbn [negb].
    + cbn. apply IH.
    + destruct (call_handler h val s) as [[[]|q] s1] eqn:E; [|discriminate].
      intros H. apply IH in H. rewrite H. cbn [map]. 
      assert (st_log s1 = st_log s ++ [HandlerCalled h val]) as ->.
      { revert E. unfold call_handler, Mbind, log_event, assign, map_assign, Mpanic, Mret.
        destruct h as [|u|c [t [l|]|]|m i2]; cbn; try discriminate;
          try (intros [= <-]; reflexivity).
        all: destruct (decide _); try discriminate; intros [= <-]; reflexivity. }
      rewrite <- app_assoc. reflexivity.
Qed.

Lemma OnUpdate_some i p h s :
  props (st_entity s) !! i = Some p ->
  OnUpdate (Some i) h s = (Ok tt, with_prop i (with_handler p h) s).
Proof. intros Hp. unfold OnUpdate, Mbind, load_prop. rewrite Hp. reflexivity. Qed.

Lemma supported_kind_case kind :
  In kind supported_kinds ->
  exists c, switch_valueType kind = Some c /\
            (forall val, converted c val = written_value kind val) /\
            (forall val, type_of (written_value kind val) = target_type c).
Proof.
  intros Hk. cbn in Hk.
  destruct Hk as [<-|[<-|[<-|[<-|[<-|[<-|[<-|[]]]]]]]].
  - exists CaseInt. repeat split.
  - exists CaseBoolInt. repeat split. intros val.
    change (VBool (IntVal val =? 1) = VBool (bool_decide (IntVal val = 1))).
    f_equal. destruct (Z.eqb_spec (IntVal val) 1).
    + symmetry. apply bool_decide_eq_true_2. assumption.
    + symmetry. apply bool_decide_eq_false_2. assumption.
  - exists CaseFloat32. repeat split.
  - exists CaseFloat64. repeat split.
  - exists CaseString. repeat split.
  - exists CaseVector. repeat split.
  - exists CaseArray. repeat split.
Qed.

(** C10. [BindProperty] never reports absence: when no property bears the
    name it dereferences the nil result of [FindProperty] and panics, when
    several do it panics in [FindProperty]; in both cases nothing is bound.
    Only when exactly one property bears the name does it return, having
    registered the binder on that property. *)
Theorem BindProperty_needs_unique_name (s : State) (n : string) (variable : iface)
    (valueType : propertyValueType) :
  (count_name (st_entity s) n = 0%nat ->
     BindProperty n variable valueType s = (Panic NilPointer, s)) /\
  ((2 <= count_name (st_entity s) n)%nat ->
     BindProperty n variable valueType s = (Panic (DuplicateProperty n), s)) /\
  (count_name (st_entity s) n = 1%nat ->
     exists i p, props (st_entity s) !! i = Some p /\ Name p = n /\
       BindProperty n variable valueType s
       = (Ok tt, with_prop i (with_handler p (binder_for variable valueType)) s)).
Proof.
  unfold count_name, BindProperty, Mbind, get_entity, lift_outcome, FindProperty.
  pose proof (FindProperty_loop_none (props (st_entity s)) 0 n) as H.
  destruct (count_occ String.string_dec (map Name (props (st_entity s))) n) as [|[|c]].
  - rewrite H. split; [reflexivity|]. split; [lia|discriminate].
  - destruct H as (k & p & Hk & Hp & ->). split; [discriminate|]. split; [lia|].
    intros _. exists k, p. split; [exact Hk|]. split; [exact Hp|].
    cbn [Nat.add]. unfold Bind. fold (binder_for variable valueType).
    apply OnUpdate_some, Hk.
  - rewrite H. split; [discriminate|]. split; [reflexivity|discriminate].
Qed.

Lemma call_binder c l val s :
  call_handler (binder c (Pointer (target_type c) (Some l))) val s
  = (Ok tt,
     set_heap (<[l := converted c val]> (st_heap s))
       (set_log (st_log s ++ [HandlerCalled (binder c (Pointer (target_type c) (Some l))) val]) s)).
Proof.
  unfold call_handler, Mbind, log_event, assign.
  rewrite type_of_converted. destruct (decide _); [reflexivity|congruence].
Qed.

(** ** One property update *)

Section UpdateFacts.

Variable decode : flattenedPropEntry -> R PropertyValue.

Lemma update_prop_in_range i p s :
  props (st_entity s) !! i = Some p ->
  update_prop decode (Z.of_nat i) s
  = match decode (entry p) (st_reader s) with
    | Some (val, r') =>
        call_handlers (updateHandlers p) val
          (with_prop i (mkProperty (entry p) (updateHandlers p) val) (set_reader r' s))
    | None => (Panic ReaderPanic, s)
    end.
Proof.
  intros Hp. pose proof (lookup_lt_Some _ _ _ Hp) as Hlt.
  unfold update_prop, Mbind at 1, index_props.
  replace (0 <=? Z.of_nat i) with true by (symmetry; apply Z.leb_le; lia).
  replace (Z.of_nat i <? Z.of_nat (length (props (st_entity s)))) with true
    by (symmetry; apply Z.ltb_lt; lia).
  cbn [andb]. rewrite Nat2Z.id.
  unfold Mbind at 1, decodeProp, Mbind at 1, load_prop. rewrite Hp.
  unfold Mbind at 1, with_reader.
  destruct (decode (entry p) (st_reader s)) as [[val r']|]; [|reflexivity].
  unfold store_prop. fold (with_prop i (mkProperty (entry p) (updateHandlers p) val) (set_reader r' s)).
  rewrite (firePropertyUpdate_call_handlers i (mkProperty (entry p) (updateHandlers p) val)).
  - reflexivity.
  - cbn. apply list_lookup_insert_eq. exact Hlt.
Qed.

Lemma update_prop_out_of_range idx s :
  ~ (0 <= idx < Z.of_nat (length (props (st_entity s)))) ->
  update_prop decode idx s
  = (Panic (IndexOutOfRange idx (length (props (st_entity s)))), s).
Proof.
  intros Hidx. unfold update_prop, Mbind at 1, index_props.
  destruct (Z.leb_spec 0 idx); [|reflexivity].
  destruct (Z.ltb_spec idx (Z.of_nat (length (props (st_entity s))))); [lia|reflexivity].
Qed.

(** ** The update loop *)

(** An invariant of the loop body is an invariant of the loop, whatever its
    outcome. *)
Lemma for_each_invariant {A} (I : State -> Prop) (l : list A) (body : A -> M unit) :
  (forall x s o s', I s -> body x s = (o, s') -> I s') ->
  forall s o s', I s -> for_each l body s = (o, s') -> I s'.
Proof.
  intros Hbody. induction l as [|x l IH]; intros s o s' Hs.
  - intros [= <- <-]. exact Hs.
  - cbn [for_each]. unfold Mbind.
    destruct (body x s) as [[[]|p] s1] eqn:E.
    + apply IH. eapply Hbody; eassumption.
    + intros [= <- <-]. eapply Hbody; eassumption.
Qed.

(** A completed update of one property: the index is in range, the decoder
    delivered a value, and the handlers ran on the state holding it. *)
Lemma update_prop_ok idx s s' :
  update_prop decode idx s = (Ok tt, s') ->
  exists i p val r',
    idx = Z.of_nat i /\ props (st_entity s) !! i = Some p /\
    decode (entry p) (st_reader s) = Some (val, r') /\
    call_handlers (updateHandlers p) val
      (with_prop i (mkProperty (entry p) (updateHandlers p) val) (set_reader r' s))
    = (Ok tt, s').
Proof.
  intros H.
  destruct (decide (0 <= idx < Z.of_nat (length (props (st_entity s))))) as [Hin|Hout].
  - destruct (lookup_lt_is_Some_2 (props (st_entity s)) (Z.to_nat idx)) as [p Hp]; [lia|].
    replace idx with (Z.of_nat (Z.to_nat idx)) in H by lia.
    rewrite (update_prop_in_range _ _ _ Hp) in H.
    destruct (decode (entry p) (st_reader s)) as [[val r']|] eqn:Hd; [|discriminate].
    exists (Z.to_nat idx), p, val, r'. split; [lia|auto].
  - rewrite update_prop_out_of_range in H by exact Hout. discriminate.
Qed.

(** Whatever its outcome, an update of one property keeps the extent of the
    property list, the entries and the handler lists. *)
Lemma update_prop_layout idx s o s' :
  update_prop decode idx s = (o, s') ->
  map entry (props (st_entity s')) = map entry (props (st_entity s)) /\
  map updateHandlers (props (st_entity s')) = map updateHandlers (props (st_entity s)).
Proof.
  intros H.
  destruct (decide (0 <= idx < Z.of_nat (length (props (st_entity s))))) as [Hin|Hout].
  - destruct (lookup_lt_is_Some_2 (props (st_entity s)) (Z.to_nat idx)) as [p Hp]; [lia|].
    replace idx with (Z.of_nat (Z.to_nat idx)) in H by lia.
    rewrite (update_prop_in_range _ _ _ Hp) in H.
    destruct (decode (entry p) (st_reader s)) as [[val r']|] eqn:Hd.
    + apply call_handlers_frame in H as [-> _]. cbn.
      rewrite !list_fmap_insert. cbn.
      rewrite !list_insert_id; [auto| |]; rewrite list_lookup_fmap, Hp; reflexivity.
    + injection H as _ <-. auto.
  - rewrite update_prop_out_of_range in H by exact Hout. injection H as _ <-. auto.
Qed.

Lemma for_each_update_layout idxs s o s' :
  for_each idxs (update_prop decode) s = (o, s') ->
  map entry (props (st_entity s')) = map entry (props (st_entity s)) /\
  map updateHandlers (props (st_entity s')) = map updateHandlers (props (st_entity s)).
Proof.
  apply (for_each_invariant (fun s1 =>
    map entry (props (st_entity s1)) = map entry (props (st_entity s)) /\
    map updateHandlers (props (st_entity s1)) = map updateHandlers (props (st_entity s))));
    [|auto].
  intros idx s1 o1 s2 [H1 H2] E. apply update_prop_layout in E as [E1 E2].
  split; congruence.
Qed.

(** A property the rest of the loop does not update is as the loop found it. *)
Lemma for_each_update_other idxs s o s' (j : nat) :
  for_each idxs (update_prop decode) s = (o, s') ->
  Z.of_nat j ∉ idxs ->
  props (st_entity s') !! j = props (st_entity s) !! j.
Proof.
  revert s. induction idxs as [|idx idxs IH]; intros s.
  - intros [= _ <-]. reflexivity.
  - cbn [for_each]. unfold Mbind. intros H Hj.
    apply not_elem_of_cons in Hj as [Hne Hj].
    assert (Hstep : forall o1 s1, update_prop decode idx s = (o1, s1) ->
              props (st_entity s1) !! j = props (st_entity s) !! j).
    { intros o1 s1 E.
      destruct (decide (0 <= idx < Z.of_nat (length (props (st_entity s))))) as [Hin|Hout].
      - destruct (lookup_lt_is_Some_2 (props (st_entity s)) (Z.to_nat idx)) as [p Hp]; [lia|].
        replace idx with (Z.of_nat (Z.to_nat idx)) in E by lia.
        rewrite (update_prop_in_range _ _ _ Hp) in E.
        destruct (decode (entry p) (st_reader s)) as [[val r']|] eqn:Hd.
        + apply call_handlers_frame in E as [-> _]. cbn.
          apply list_lookup_insert_ne. lia.
        + injection E as _ <-. reflexivity.
      - rewrite update_prop_out_of_range in E by exact Hout. injection E as _ <-.
        reflexivity. }
    destruct (update_prop decode idx s) as [[[]|q] s1] eqn:E.
    + rewrite (IH s1 H Hj). eapply Hstep. reflexivity.
    + injection H as _ <-. eapply Hstep. reflexivity.
Qed.

Lemma update_events_lookup e i p :
  props e !! i = Some p ->
  update_events e (Z.of_nat i)
  = map (fun h => HandlerCalled h (value p)) (non_nil (updateHandlers p)).
Proof. intros Hp. unfold update_events. rewrite Nat2Z.id, Hp. reflexivity. Qed.

(** The log of a completed loop over indices that are pairwise different. *)
Lemma for_each_update_log idxs s s' :
  NoDup idxs ->
  for_each idxs (update_prop decode) s = (Ok tt, s') ->
  st_log s' = st_log s ++ flat_map (update_events (st_entity s')) idxs.
Proof.
  revert s. induction idxs as [|idx idxs IH]; intros s Hnd.
  - intros [= <-]. cbn. rewrite app_nil_r. reflexivity.
  - cbn [for_each flat_map]. unfold Mbind. apply NoDup_cons in Hnd as [Hidx Hnd].
    destruct (update_prop decode idx s) as [[[]|q] s1] eqn:E; [|discriminate].
    intros H. rewrite (IH s1 Hnd H).
    apply update_prop_ok in E as (i & p & val & r' & -> & Hp & Hd & Hrun).
    pose proof (for_each_update_other _ _ _ _ i H Hidx) as Hi.
    pose proof (call_handlers_frame _ _ _ _ _ Hrun) as [Hent _].
    rewrite (call_handlers_log _ _ _ _ Hrun). cbn [st_log with_prop set_entity set_reader].
    rewrite (update_events_lookup (st_entity s') i
               (mkProperty (entry p) (updateHandlers p) val)).
    + cbn. rewrite <- app_assoc. reflexivity.
    + rewrite Hi, Hent. cbn. apply list_lookup_insert_eq. eapply lookup_lt_Some, Hp.
Qed.

Lemma ApplyUpdate_run s newWay r1 idxs r2 :
  ReadBit (st_reader s) = Some (newWay, r1) ->
  index_run newWay (-1) r1 idxs r2 ->
  ApplyUpdate decode s = for_each idxs (update_prop decode) (set_reader r2 s).
Proof.
  intros Hbit Hrun. apply readFieldIndices_run in Hrun.
  unfold ApplyUpdate, Mbind at 1, with_reader at 1. rewrite Hbit.
  unfold Mbind at 1, with_reader at 1. cbn [st_reader set_reader]. rewrite Hrun.
  reflexivity.
Qed.

Lemma StronglySorted_lt_NoDup (l : list Z) : StronglySorted Z.lt l -> NoDup l.
Proof.
  induction 1 as [|x l Hs IH Hall]; constructor; [|exact IH].
  intros Hin. rewrite Forall_forall in Hall. apply Hall in Hin. lia.
Qed.

Lemma for_each_update_length idxs s o s' :
  for_each idxs (update_prop decode) s = (o, s') ->
  length (props (st_entity s')) = length (props (st_entity s)).
Proof.
  intros H. apply for_each_update_layout in H as [H _].
  apply (f_equal length) in H. rewrite !length_map in H. exact H.
Qed.

(** A loop that meets an index outside the property list panics. *)
Lemma for_each_update_out_of_range idxs s :
  Exists (fun idx => ~ in_range (st_entity s) idx) idxs ->
  exists p s', for_each idxs (update_prop decode) s = (Panic p, s').
Proof.
  revert s. induction idxs as [|idx idxs IH]; intros s Hex.
  - inversion Hex.
  - cbn [for_each]. unfold Mbind.
    destruct (update_prop decode idx s) as [[[]|q] s1] eqn:E; [|eauto].
    apply IH. apply Exists_cons in Hex as [Hout|Hex].
    + rewrite update_prop_out_of_range in E by exact Hout. discriminate.
    + assert (Hlen : length (props (st_entity s1)) = length (props (st_entity s))).
      { apply (for_each_update_length [idx] s (Ok tt)).
        cbn [for_each]. unfold Mbind. rewrite E. reflexivity. }
      apply Exists_exists in Hex as (x & Hx & Hout). apply Exists_exists.
      exists x. split; [exact Hx|]. unfold in_range in *. rewrite Hlen. exact Hout.
Qed.

(** C2. [ApplyUpdate] reads the [newWay] bit, then the run of indices from
    -1, then updates the properties in the order of the run.  For a reader
    short enough that no index overflows [int] (fewer than 2^51 bits, which
    every reader over a buffer in memory is), the run is strictly increasing
    and starts at 0 or above.  A completed update leaves the handler lists as
    they were and has logged, index after index in the order of the run, one
    call of each non-nil handler of the property in registration order, with
    the property's new value. *)
Theorem ApplyUpdate_fires_in_index_order (s : State) (newWay : bool)
    (r1 : BitReader) (idxs : list Z) (r2 : BitReader) :
  Z.of_nat (length (st_reader s)) < 2 ^ 51 ->
  ReadBit (st_reader s) = Some (newWay, r1) ->
  index_run newWay (-1) r1 idxs r2 ->
  StronglySorted Z.lt idxs /\
  Forall (fun idx => 0 <= idx) idxs /\
  ApplyUpdate decode s = for_each idxs (update_prop decode) (set_reader r2 s) /\
  forall s', ApplyUpdate decode s = (Ok tt, s') ->
    map updateHandlers (props (st_entity s')) = map updateHandlers (props (st_entity s)) /\
    st_log s' = st_log s ++ flat_map (update_events (st_entity s')) idxs.
Proof.
  intros Hlen Hbit Hrun.
  pose proof (ReadBit_length _ _ _ Hbit) as Hl.
  destruct (index_run_increasing _ _ _ _ _ Hrun) as [Hs Hall]; [lia| |].
  { unfold Go.int_max. lia. }
  split; [exact Hs|].
  split; [eapply Forall_impl; [exact Hall|]; cbn; lia|].
  rewrite (ApplyUpdate_run _ _ _ _ _ Hbit Hrun).
  split; [reflexivity|].
  intros s' H. split.
  - apply for_each_update_layout in H as [_ H]. exact H.
  - apply for_each_update_log in H; [exact H|]. apply StronglySorted_lt_NoDup, Hs.
Qed.

(** C4. When the run of indices holds one that is outside the property list,
    [ApplyUpdate] panics; the property list has the extent it had.  If the
    updates for the indices before the first such index complete, the panic is
    Go's index-out-of-range at that index, raised in the state those updates
    left: nothing was decoded or written for it. *)
Theorem ApplyUpdate_index_out_of_range (s : State) (newWay : bool)
    (r1 : BitReader) (idxs : list Z) (r2 : BitReader) :
  ReadBit (st_reader s) = Some (newWay, r1) ->
  index_run newWay (-1) r1 idxs r2 ->
  Exists (fun idx => ~ in_range (st_entity s) idx) idxs ->
  exists p s',
    ApplyUpdate decode s = (Panic p, s') /\
    length (props (st_entity s')) = length (props (st_entity s)) /\
    forall before idx rest s'',
      idxs = before ++ idx :: rest ->
      ~ in_range (st_entity s) idx ->
      for_each before (update_prop decode) (set_reader r2 s) = (Ok tt, s'') ->
      p = IndexOutOfRange idx (length (props (st_entity s))) /\ s' = s''.
Proof.
  intros Hbit Hrun Hex.
  rewrite (ApplyUpdate_run _ _ _ _ _ Hbit Hrun).
  destruct (for_each_update_out_of_range idxs (set_reader r2 s) Hex) as (p & s' & H).
  exists p, s'. split; [exact H|].
  split; [apply for_each_update_length in H; exact H|].
  intros before idx rest s'' -> Hout Hbefore.
  rewrite for_each_app, Hbefore in H. cbn [for_each] in H. unfold Mbind in H.
  apply for_each_update_length in Hbefore. cbn in Hbefore.
  rewrite update_prop_out_of_range in H.
  - injection H as <- <-. rewrite Hbefore. auto.
  - unfold in_range in Hout. rewrite Hbefore. exact Hout.
Qed.

(** ** Baselines *)

Lemma ApplyUpdate_ok s s' :
  ApplyUpdate decode s = (Ok tt, s') ->
  exists newWay r1 idxs r2,
    ReadBit (st_reader s) = Some (newWay, r1) /\
    index_run newWay (-1) r1 idxs r2 /\
    for_each idxs (update_prop decode) (set_reader r2 s) = (Ok tt, s').
Proof.
  unfold ApplyUpdate, Mbind at 1, with_reader at 1.
  destruct (ReadBit (st_reader s)) as [[newWay r1]|] eqn:Hbit; [|discriminate].
  unfold Mbind at 1, with_reader at 1. cbn [st_reader set_reader].
  destruct (readFieldIndices (-1) newWay [] r1) as [[idxs r2]|] eqn:Hrun; [|discriminate].
  intros H. exists newWay, r1, idxs, r2.
  split; [reflexivity|]. split; [apply readFieldIndices_run, Hrun|exact H].
Qed.

Lemma call_handlers_other_maps hs val s o s' m :
  Forall (fun h => adder_map h <> Some m) hs ->
  call_handlers hs val s = (o, s') ->
  st_maps s' !! m = st_maps s !! m.
Proof.
  unfold call_handlers. revert s. induction hs as [|h hs IH]; intros s Hhs.
  - intros [= _ <-]. reflexivity.
  - apply Forall_cons in Hhs as [Hh Hhs]. cbn [for_each]. unfold Mbind.
    assert (Hstep : forall o1 s1, call_handler h val s = (o1, s1) ->
              st_maps s1 !! m = st_maps s !! m).
    { unfold call_handler, Mbind, log_event, assign, map_assign, Mpanic, Mret.
      intros o1 s1.
      destruct h as [|u|c [t [l|]|]|m' i2]; cbn;
        try (intros [= _ <-]; reflexivity).
      - destruct (decide _); intros [= _ <-]; reflexivity.
      - destruct (decide _); intros [= _ <-]; reflexivity.
      - intros [= _ <-]. cbn. apply list_lookup_alter_ne.
        intros ->. apply Hh. reflexivity. }
    destruct (is_nil h).
    + cbn. apply IH, Hhs.
    + destruct (call_handler h val s) as [[[]|q] s1] eqn:E.
      * intros H. rewrite (IH s1 Hhs H). eapply Hstep. reflexivity.
      * intros [= _ <-]. eapply Hstep. reflexivity.
Qed.

(** The property of another list with the same entries, at the same index. *)
Lemma same_entries_lookup (ps qs : list Property) i p :
  map entry qs = map entry ps ->
  ps !! i = Some p ->
  exists q, qs !! i = Some q /\ entry q = entry p.
Proof.
  intros He Hp. apply (f_equal (fun l => l !! i)) in He.
  rewrite !list_lookup_fmap, Hp in He. cbn in He.
  destruct (qs !! i) as [q|]; [|discriminate]. injection He as He. eauto.
Qed.

Lemma map_entry_insert (ps : list Property) i p hs val :
  ps !! i = Some p ->
  map entry (<[i := mkProperty (entry p) hs val]> ps) = map entry ps.
Proof.
  intros Hp. rewrite list_fmap_insert. cbn.
  apply list_insert_id. rewrite list_lookup_fmap, Hp. reflexivity.
Qed.

(** The update loop on an entity whose adders write to the map [m], next to
    the same loop on an entity of the same layout that has no handlers. *)
Lemma capture_simulation m idxs :
  forall sA sA' sB mA,
    for_each idxs (update_prop decode) sA = (Ok tt, sA') ->
    st_reader sB = st_reader sA ->
    map entry (props (st_entity sB)) = map entry (props (st_entity sA)) ->
    adders_attached m (props (st_entity sA)) ->
    st_maps sA !! m = Some mA ->
    no_handlers (st_entity sB) ->
    exists sB' mA',
      for_each idxs (update_prop decode) sB = (Ok tt, sB') /\
      st_maps sA' !! m = Some mA' /\
      (forall k, k ∈ idxs ->
         exists p', 0 <= k /\ props (st_entity sB') !! Z.to_nat k = Some p' /\
                    mA' !! k = Some (value p')) /\
      (forall k, k ∉ idxs -> mA' !! k = mA !! k).
Proof.
  induction idxs as [|idx idxs IH]; intros sA sA' sB mA Hloop Hrd Hent Hadd Hmap Hno.
  - injection Hloop as <-. exists sB, mA. split; [reflexivity|]. split; [exact Hmap|].
    split; [|reflexivity]. intros k Hk. inversion Hk.
  - cbn [for_each] in Hloop |- *. unfold Mbind in Hloop |- *.
    destruct (update_prop decode idx sA) as [[[]|q] sA1] eqn:E; [|discriminate].
    apply update_prop_ok in E as (i & pA & val & r' & -> & HpA & Hd & Hrun).
    destruct (Hadd i pA HpA) as (hs & Hhs & Hother).
    set (sA0 := with_prop i (mkProperty (entry pA) (updateHandlers pA) val)
                  (set_reader r' sA)) in Hrun.
    rewrite Hhs in Hrun. unfold call_handlers in Hrun. rewrite for_each_app in Hrun.
    destruct (for_each hs _ sA0) as [[[]|q] sA0'] eqn:Ehs; [|discriminate].
    fold (call_handlers hs val sA0) in Ehs.
    pose proof (call_handlers_other_maps _ _ _ _ _ _ Hother Ehs) as Hm0.
    apply call_handlers_frame in Ehs as [Hent0 Hrd0].
    cbn in Hrun. injection Hrun as <-.
    destruct (same_entries_lookup _ _ _ _ Hent HpA) as (pB & HpB & HeB).
    assert (HhB : updateHandlers pB = []).
    { unfold no_handlers in Hno. rewrite Forall_forall in Hno.
      apply Hno. eapply list_elem_of_lookup_2, HpB. }
    rewrite (update_prop_in_range _ _ _ HpB), HeB, Hrd, Hd, HhB.
    cbn [call_handlers for_each Mret].
    set (sB0 := with_prop i (mkProperty (entry pA) [] val) (set_reader r' sB)).
    edestruct (IH _ sA' sB0 (<[Z.of_nat i := val]> mA) Hloop)
      as (sB' & mA' & HloopB & Hmap' & Hin & Hout).
    + cbn. rewrite Hrd0. reflexivity.
    + cbn. rewrite Hent0. cbn.
      rewrite <- HeB at 1. rewrite (map_entry_insert _ _ _ _ _ HpB).
      rewrite (map_entry_insert _ _ _ _ _ HpA). exact Hent.
    + cbn. rewrite Hent0. cbn. intros j pj Hj.
      destruct (decide (j = i)) as [->|Hne].
      * rewrite list_lookup_insert_eq in Hj by (eapply lookup_lt_Some, HpA).
        injection Hj as <-. cbn. eauto.
      * rewrite list_lookup_insert_ne in Hj by congruence. apply Hadd, Hj.
    + cbn. rewrite list_lookup_alter_eq, Hm0. cbn. rewrite Hmap. reflexivity.
    + unfold no_handlers. cbn. apply Forall_insert; [exact Hno|reflexivity].
    + exists sB', mA'. split; [exact HloopB|]. split; [exact Hmap'|]. split.
      * intros k Hk. destruct (decide (k ∈ idxs)) as [Hk'|Hk']; [apply Hin, Hk'|].
        apply elem_of_cons in Hk as [->|Hk]; [|contradiction].
        exists (mkProperty (entry pA) [] val). split; [lia|]. rewrite Nat2Z.id.
        split.
        -- rewrite (for_each_update_other _ _ _ _ i HloopB Hk'). cbn.
           apply list_lookup_insert_eq. eapply lookup_lt_Some, HpB.
        -- rewrite (Hout _ Hk'). apply lookup_insert_eq.
      * intros k Hk. apply not_elem_of_cons in Hk as [Hne Hk].
        rewrite (Hout _ Hk). apply lookup_insert_ne. congruence.
Qed.

(** [applyBaseline] over keys that are indices of the property list: it
    completes, touches nothing but property values, and gives every property
    whose index is a key the value the map holds for it. *)
Lemma applyBaseline_in_run keys (baseline : gmap Z PropertyValue) :
  forall s,
    Forall (in_range (st_entity s)) keys ->
    exists s',
      applyBaseline_in keys baseline s = (Ok tt, s') /\
      st_reader s' = st_reader s /\ st_heap s' = st_heap s /\
      st_maps s' = st_maps s /\ st_log s' = st_log s /\
      length (props (st_entity s')) = length (props (st_entity s)) /\
      forall i p, props (st_entity s) !! i = Some p ->
        props (st_entity s') !! i
        = Some (mkProperty (entry p) (updateHandlers p)
                  (if decide (Z.of_nat i ∈ keys)
                   then default zeroValue (baseline !! Z.of_nat i)
                   else value p)).
Proof.
  unfold applyBaseline_in.
  induction keys as [|k keys IH]; intros s Hkeys.
  - exists s. cbn. repeat (split; [reflexivity|]).
    intros i p Hp. rewrite Hp. destruct p. cbn.
    destruct (decide _) as [H|H]; [inversion H|reflexivity].
  - apply Forall_cons in Hkeys as [Hk Hkeys]. unfold in_range in Hk.
    destruct (lookup_lt_is_Some_2 (props (st_entity s)) (Z.to_nat k)) as [pk Hpk]; [lia|].
    cbn [for_each]. unfold Mbind at 1. unfold Mbind at 1, index_props.
    replace (0 <=? k) with true by (symmetry; apply Z.leb_le; lia).
    replace (k <? Z.of_nat (length (props (st_entity s)))) with true
      by (symmetry; apply Z.ltb_lt; lia).
    cbn [andb]. unfold Mbind at 1, load_prop. rewrite Hpk. unfold store_prop.
    set (s1 := set_entity _ s).
    destruct (IH s1) as (s' & Hrun & Hr & Hh & Hm & Hl & Hlen & Hprops).
    { subst s1. unfold in_range in *. cbn. rewrite length_insert. exact Hkeys. }
    exists s'. split; [exact Hrun|].
    subst s1. cbn in Hr, Hh, Hm, Hl, Hlen, Hprops. rewrite length_insert in Hlen.
    do 5 (split; [assumption|]).
    intros i p Hp.
    destruct (decide (i = Z.to_nat k)) as [->|Hne].
    + assert (p = pk) as -> by congruence.
      rewrite (Hprops (Z.to_nat k) (mkProperty (entry pk) (updateHandlers pk)
                                      (default zeroValue (baseline !! k))))
        by (apply list_lookup_insert_eq; eapply lookup_lt_Some, Hpk).
      cbn. rewrite !Z2Nat.id by lia.
      rewrite (decide_True (P := k ∈ k :: keys)) by apply list_elem_of_here.
      destruct (decide (k ∈ keys)); reflexivity.
    + rewrite (Hprops i p) by (rewrite list_lookup_insert_ne by congruence; exact Hp).
      do 2 f_equal.
      destruct (decide (Z.of_nat i ∈ keys)) as [Hin|Hin].
      * rewrite decide_True by (apply list_elem_of_further, Hin). reflexivity.
      * rewrite decide_False; [reflexivity|].
        intros [Heq|Hin']%elem_of_cons; [lia|contradiction].
Qed.

(** A loop over the indices [k, k + n) of the property list whose body
    rewrites the property at its index and nothing else. *)
Lemma for_each_seq_props (f : nat -> Property -> Property) (body : nat -> M unit) :
  (forall i p s, props (st_entity s) !! i = Some p ->
     body i s = (Ok tt, with_prop i (f i p) s)) ->
  forall n k s, (k + n <= length (props (st_entity s)))%nat ->
    exists ps',
      for_each (seq k n) body s = (Ok tt, set_entity (set_props ps' (st_entity s)) s) /\
      length ps' = length (props (st_entity s)) /\
      forall j, ps' !! j
                = if decide (k <= j < k + n)%nat
                  then f j <$> props (st_entity s) !! j
                  else props (st_entity s) !! j.
Proof.
  intros Hbody. induction n as [|n IH]; intros k s Hk.
  - exists (props (st_entity s)). split; [|split; [reflexivity|]].
    + cbn. destruct s as [[] ? ? ? ?]. reflexivity.
    + intros j. destruct (decide _); [lia|reflexivity].
  - destruct (lookup_lt_is_Some_2 (props (st_entity s)) k) as [p Hp]; [lia|].
    cbn [seq for_each]. unfold Mbind. rewrite (Hbody k p s Hp).
    destruct (IH (S k) (with_prop k (f k p) s)) as (ps' & Hrun & Hlen & Hlook).
    { cbn. rewrite length_insert. lia. }
    exists ps'. split; [|split].
    + rewrite Hrun. reflexivity.
    + rewrite Hlen. cbn. apply length_insert.
    + intros j. rewrite Hlook. cbn.
      destruct (decide (j = k)) as [->|Hne].
      * rewrite list_lookup_insert_eq by (eapply lookup_lt_Some, Hp).
        rewrite Hp. repeat case_decide; try lia; reflexivity.
      * rewrite list_lookup_insert_ne by congruence.
        repeat case_decide; try lia; reflexivity.
Qed.

Lemma for_each_all_props (f : nat -> Property -> Property) (body : nat -> M unit) s :
  (forall i p s, props (st_entity s) !! i = Some p ->
     body i s = (Ok tt, with_prop i (f i p) s)) ->
  for_each (seq 0 (length (props (st_entity s)))) body s
  = (Ok tt, set_entity (set_props (imap f (props (st_entity s))) (st_entity s)) s).
Proof.
  intros Hbody.
  destruct (for_each_seq_props f body Hbody (length (props (st_entity s))) 0 s)
    as (ps' & -> & Hlen & Hlook); [lia|].
  do 3 f_equal. apply list_eq. intros j. rewrite Hlook, list_lookup_imap.
  destruct (decide _) as [|Hj]; [reflexivity|].
  rewrite (proj2 (lookup_ge_None _ j)) by lia. reflexivity.
Qed.

Lemma attach_adders_imap m s :
  attach_adders m s
  = (Ok tt,
     set_entity (set_props
       (imap (fun i p => mkProperty (entry p)
                           (updateHandlers p ++ [adder m (Z.of_nat i)]) (value p))
             (props (st_entity s))) (st_entity s)) s).
Proof.
  unfold attach_adders, Mbind, get_entity.
  apply (for_each_all_props (fun i p => with_handler p (adder m (Z.of_nat i)))).
  intros i p s0 Hp. apply OnUpdate_some, Hp.
Qed.

Lemma clear_handlers_map s :
  clear_handlers s
  = (Ok tt,
     set_entity (set_props
       (map (fun p => mkProperty (entry p) [] (value p)) (props (st_entity s)))
       (st_entity s)) s).
Proof.
  unfold clear_handlers, Mbind at 1, get_entity.
  rewrite (for_each_all_props (fun _ p => mkProperty (entry p) [] (value p))).
  - do 3 f_equal. apply list_eq. intros j.
    rewrite list_lookup_imap, list_lookup_fmap. reflexivity.
  - intros i p s0 Hp. unfold Mbind, load_prop. rewrite Hp. reflexivity.
Qed.

Lemma initializeBaseline_unfold s :
  let m := length (st_maps s) in
  let attached :=
    set_entity (set_props
      (imap (fun i p => mkProperty (entry p)
                          (updateHandlers p ++ [adder m (Z.of_nat i)]) (value p))
            (props (st_entity s))) (st_entity s))
      (set_maps (st_maps s ++ [∅]) s) in
  initializeBaseline decode s
  = match ApplyUpdate decode attached with
    | (Ok _, s') =>
        (Ok (default ∅ (st_maps s' !! m)),
         set_entity (set_props
           (map (fun p => mkProperty (entry p) [] (value p)) (props (st_entity s')))
           (st_entity s')) s')
    | (Panic p, s') => (Panic p, s')
    end.
Proof.
  cbv zeta. unfold initializeBaseline, Mbind at 1, make_map.
  unfold Mbind at 1. rewrite attach_adders_imap. cbn [st_entity set_maps].
  unfold Mbind at 1.
  destruct (ApplyUpdate decode _) as [[[]|p] s']; [|reflexivity].
  unfold Mbind at 1. rewrite clear_handlers_map. reflexivity.
Qed.

(** C8. When [initializeBaseline] returns, every property of the entity has
    an empty handler list. *)
Theorem initializeBaseline_leaves_no_handler (s : State)
    (baseline : gmap Z PropertyValue) (s' : State) :
  initializeBaseline decode s = (Ok baseline, s') ->
  Forall (fun p => updateHandlers p = []) (props (st_entity s')).
Proof.
  rewrite initializeBaseline_unfold.
  destruct (ApplyUpdate decode _) as [[[]|p] s1]; [|discriminate].
  intros [= _ <-]. cbn. apply Forall_forall.
  intros p [q [-> _]]%list_elem_of_fmap. reflexivity.
Qed.

(** C3. Let [initializeBaseline] on an entity return a baseline for an update
    record.  On an entity of the same layout with no handler registered,
    positioned on the same record, [ApplyUpdate] completes, and
    [applyBaseline], in whatever order it visits the keys of the map,
    completes with the same property values; [applyBaseline] logs no handler
    call and leaves the handler lists, the bound variables and the reader as
    they were. *)
Theorem baseline_matches_direct_update (s1 : State)
    (baseline : gmap Z PropertyValue) (s1' s2 : State) (keys : list Z) :
  initializeBaseline decode s1 = (Ok baseline, s1') ->
  adders_allocated s1 ->
  map entry (props (st_entity s2)) = map entry (props (st_entity s1)) ->
  no_handlers (st_entity s2) ->
  st_reader s2 = st_reader s1 ->
  keys ≡ₚ (map_to_list baseline).*1 ->
  exists s_direct s_base,
    ApplyUpdate decode s2 = (Ok tt, s_direct) /\
    applyBaseline_in keys baseline s2 = (Ok tt, s_base) /\
    map value (props (st_entity s_base)) = map value (props (st_entity s_direct)) /\
    st_log s_base = st_log s2 /\
    map updateHandlers (props (st_entity s_base))
    = map updateHandlers (props (st_entity s2)) /\
    st_heap s_base = st_heap s2 /\
    st_reader s_base = st_reader s2.
Proof.
  intros Hinit Hwf Hent Hno Hrd Hkeys.
  rewrite initializeBaseline_unfold in Hinit. cbv zeta in Hinit.
  set (m := length (st_maps s1)) in *.
  set (attached := set_entity _ (set_maps _ s1)) in Hinit.
  destruct (ApplyUpdate decode attached) as [[[]|q] sc] eqn:Hup; [|discriminate].
  injection Hinit as <- _.
  apply ApplyUpdate_ok in Hup as (newWay & r1 & idxs & r2 & Hbit & Hrun & Hloop).
  destruct (capture_simulation m idxs (set_reader r2 attached) sc (set_reader r2 s2) ∅ Hloop)
    as (s_direct & mA' & Hdirect & Hmap & Hin & Hout).
  { reflexivity. }
  { subst attached. cbn. rewrite Hent.
    apply list_eq. intros i. rewrite !list_lookup_fmap, list_lookup_imap.
    destruct (props (st_entity s1) !! i); reflexivity. }
  { subst attached. cbn. intros i p Hp. rewrite list_lookup_imap in Hp.
    destruct (props (st_entity s1) !! i) as [p0|] eqn:Hp0; [|discriminate].
    injection Hp as <-. cbn. exists (updateHandlers p0). split; [reflexivity|].
    unfold adders_allocated in Hwf. rewrite Forall_forall in Hwf.
    specialize (Hwf p0 (list_elem_of_lookup_2 _ _ _ Hp0)).
    eapply Forall_impl; [exact Hwf|]. cbn. intros h Hh Heq.
    specialize (Hh m Heq). lia. }
  { subst attached m. cbn. apply list_lookup_middle. reflexivity. }
  { exact Hno. }
  rewrite Hmap. rewrite Hmap in Hkeys.
  change (default ∅ (Some mA')) with mA' in *.
  assert (Hup2 : ApplyUpdate decode s2 = (Ok tt, s_direct)).
  { rewrite (ApplyUpdate_run s2 newWay r1 idxs r2); [exact Hdirect| |exact Hrun].
    rewrite Hrd. exact Hbit. }
  pose proof (for_each_update_length _ _ _ _ Hdirect) as Hlen. cbn in Hlen.
  assert (Hk : forall k, k ∈ keys <-> k ∈ idxs).
  { intros k. rewrite Hkeys, list_elem_of_fmap. split.
    - intros ([k' v] & -> & Hkv). apply elem_of_map_to_list in Hkv. cbn.
      destruct (decide (k' ∈ idxs)) as [|Hn]; [assumption|].
      rewrite (Hout _ Hn), lookup_empty in Hkv. discriminate.
    - intros Hkin. destruct (Hin _ Hkin) as (p' & _ & _ & Hv).
      exists (k, value p'). split; [reflexivity|]. apply elem_of_map_to_list, Hv. }
  destruct (applyBaseline_in_run keys mA' s2)
    as (s_base & Hbase & Hr & Hh & _ & Hl & Hblen & Hprops).
  { apply Forall_forall. intros k Hkin. apply Hk in Hkin.
    destruct (Hin _ Hkin) as (p' & Hk0 & Hp' & _).
    apply lookup_lt_Some in Hp'. unfold in_range. lia. }
  exists s_direct, s_base.
  split; [exact Hup2|]. split; [exact Hbase|].
  split; [|split; [exact Hl|split; [|split; [exact Hh|exact Hr]]]].
  - apply list_eq. intros i. rewrite !list_lookup_fmap.
    destruct (props (st_entity s2) !! i) as [p|] eqn:Hp.
    + rewrite (Hprops i p Hp). cbn.
      destruct (decide (Z.of_nat i ∈ keys)) as [Hi|Hi].
      * apply Hk in Hi. destruct (Hin _ Hi) as (p' & _ & Hp' & Hv).
        rewrite Nat2Z.id in Hp'. rewrite Hp', Hv. reflexivity.
      * rewrite Hk in Hi.
        rewrite (for_each_update_other _ _ _ _ i Hdirect Hi). cbn.
        rewrite Hp. reflexivity.
    + apply lookup_ge_None in Hp.
      rewrite (proj2 (lookup_ge_None _ i)) by lia.
      rewrite (proj2 (lookup_ge_None _ i)) by lia. reflexivity.
  - apply list_eq. intros i. rewrite !list_lookup_fmap.
    destruct (props (st_entity s2) !! i) as [p|] eqn:Hp.
    + rewrite (Hprops i p Hp). reflexivity.
    + apply lookup_ge_None in Hp.
      rewrite (proj2 (lookup_ge_None _ i)) by lia. reflexivity.
Qed.

(** C6. [Bind], for a supported kind and any variable, only registers an
    observer: the bound variables, the log and the property's value are as
    before.  When the variable is a pointer of the shape the kind asks for,
    then, as long as the binder is the last handler of the property, every
    update of the property ends with the variable holding the value the kind
    prescribes. *)
Theorem Bind_writes_converted_value (s : State) (i : nat) (p : Property)
    (kind : propertyValueType) (variable : iface) :
  props (st_entity s) !! i = Some p ->
  In kind supported_kinds ->
  exists s1,
    Bind (Some i) variable kind s = (Ok tt, s1) /\
    st_heap s1 = st_heap s /\ st_log s1 = st_log s /\
    props (st_entity s1) !! i = Some (with_handler p (binder_for variable kind)) /\
    value (with_handler p (binder_for variable kind)) = value p /\
    forall l s2 p2 hs val r',
      variable = variable_of_kind kind l ->
      props (st_entity s2) !! i = Some p2 ->
      updateHandlers p2 = hs ++ [binder_for variable kind] ->
      forallb well_typed hs = true ->
      decode (entry p2) (st_reader s2) = Some (val, r') ->
      exists s3,
        update_prop decode (Z.of_nat i) s2 = (Ok tt, s3) /\
        st_heap s3 !! l = Some (written_value kind val) /\
        props (st_entity s3) !! i = Some (mkProperty (entry p2) (updateHandlers p2) val).
Proof.
  intros Hp Hk.
  destruct (supported_kind_case kind Hk) as (c & Hc & Hconv & Hty).
  exists (with_prop i (with_handler p (binder_for variable kind)) s).
  split; [unfold Bind; fold (binder_for variable kind); apply OnUpdate_some, Hp|].
  split; [reflexivity|]. split; [reflexivity|].
  split; [cbn; apply list_lookup_insert_eq; eapply lookup_lt_Some, Hp|].
  split; [reflexivity|].
  intros l s2 p2 hs val r' -> Hp2 Hhs Hwt Hdec.
  assert (Hb : binder_for (variable_of_kind kind l) kind
               = binder c (Pointer (target_type c) (Some l))).
  { unfold binder_for, variable_of_kind. rewrite Hc, Hty. reflexivity. }
  rewrite Hb in Hhs.
  rewrite (update_prop_in_range i p2 s2 Hp2), Hdec.
  set (s2' := with_prop i _ _). rewrite Hhs.
  unfold call_handlers. rewrite for_each_app.
  destruct (call_handlers_well_typed hs val s2' Hwt) as [s2'' Hrun].
  unfold call_handlers in Hrun. rewrite Hrun.
  apply call_handlers_frame in Hrun as [Hent _].
  cbn [for_each is_nil]. unfold Mbind, Mret.
  rewrite call_binder. eexists. split; [reflexivity|].
  split.
  - cbn. rewrite Hconv. apply lookup_insert_eq.
  - cbn. rewrite Hent. subst s2'. cbn. rewrite Hhs.
    apply list_lookup_insert_eq. eapply lookup_lt_Some, Hp2.
Qed.

End UpdateFacts.

(** ** Destruction *)

Lemma for_each_call_func fs s :
  Forall (fun f => f <> nil_func) fs ->
  for_each fs call_func s = (Ok tt, set_log (st_log s ++ map FuncCalled fs) s).
Proof.
  revert s. induction fs as [|f fs IH]; intros s Hfs.
  - cbn. rewrite app_nil_r. destruct s; reflexivity.
  - apply Forall_cons in Hfs as [Hf Hfs]. cbn [for_each map]. unfold Mbind.
    destruct f as [|u]; [contradiction|]. cbn [call_func]. unfold log_event.
    rewrite (IH _ Hfs). cbn. rewrite <- app_assoc. reflexivity.
Qed.

(** C7, as the code has it.  Every call of [Destroy] calls each registered
    callback once, in registration order, and leaves the entity, with its
    list of callbacks, as it was; so a second call of [Destroy] calls each
    of them once more. *)
Theorem Destroy_fires_on_every_call (s : State) :
  Forall (fun f => f <> nil_func) (onDestroy (st_entity s)) ->
  let fired := map FuncCalled (onDestroy (st_entity s)) in
  Destroy s = (Ok tt, set_log (st_log s ++ fired) s) /\
  (Destroy ;;; Destroy)%action s = (Ok tt, set_log (st_log s ++ fired ++ fired) s).
Proof.
  intros Hfs fired.
  assert (H1 : forall s1, st_entity s1 = st_entity s ->
            Destroy s1 = (Ok tt, set_log (st_log s1 ++ fired) s1)).
  { intros s1 He. unfold Destroy, Mbind, get_entity. rewrite He.
    apply for_each_call_func, Hfs. }
  split; [apply H1; reflexivity|].
  unfold Mbind. rewrite (H1 s eq_refl). rewrite H1 by reflexivity.
  cbn. rewrite <- app_assoc. reflexivity.
Qed.

(** ** Position *)

Lemma FindProperty_value_unique e n :
  count_name e n = 1%nat ->
  exists i p, props e !! i = Some p /\ Name p = n /\
              FindProperty_value e n = Ok (value p).
Proof.
  unfold count_name, FindProperty_value, FindProperty, Obind. intros Hc.
  pose proof (FindProperty_loop_none (props e) 0 n) as H. rewrite Hc in H.
  destruct H as (k & p & Hk & Hp & ->). cbn [Nat.add]. rewrite Hk.
  exists k, p. auto.
Qed.

Lemma sub_mul_wrap cell cellWidth :
  Go.sub (Go.mul cell cellWidth) maxCoordInt = Go.wrap (cell * cellWidth - 16384).
Proof.
  unfold Go.sub, Go.mul, maxCoordInt.
  replace (Go.wrap (cell * cellWidth) - 16384)
    with (Go.wrap (cell * cellWidth) + - 16384) by lia.
  rewrite wrap_wrap_add. f_equal; lia.
Qed.

Lemma shl_1_pow2 bits :
  0 <= bits <= 62 -> Go.shl 1 (Go.uint_of_int bits) = 2 ^ bits.
Proof.
  intros Hb. unfold Go.shl, Go.uint_of_int, Go.uwrap.
  rewrite Z.mod_small by lia.
  destruct (Z.leb_spec 64 bits); [lia|].
  rewrite Z.shiftl_1_l. apply wrap_small.
  unfold Go.is_int, Go.int_min, Go.int_max.
  assert (2 ^ bits <= 2 ^ 62) by (apply Z.pow_le_mono_r; lia).
  assert (0 < 2 ^ bits) by (apply Z.pow_pos_nonneg; lia). lia.
Qed.

(** C9. When each of the five position properties is borne by exactly one
    property, [Position] returns, per axis, the float64 of
    [cell * cellWidth - 16384] plus the offset component, with
    [cellWidth = 1 << m_cellbits] and the integer arithmetic that of Go's
    [int]; for an exponent from 0 to 62 and a cell whose coordinate fits
    [int], that is the float64 of [cell * 2^exponent - 16384] plus the
    offset. *)
Theorem Position_formula (e : Entity) :
  count_name e "m_cellbits" = 1%nat ->
  count_name e "m_cellX" = 1%nat ->
  count_name e "m_cellY" = 1%nat ->
  count_name e "m_cellZ" = 1%nat ->
  count_name e "m_vecOrigin" = 1%nat ->
  exists bits cellX cellY cellZ offset,
    FindProperty_value e "m_cellbits" = Ok bits /\
    FindProperty_value e "m_cellX" = Ok cellX /\
    FindProperty_value e "m_cellY" = Ok cellY /\
    FindProperty_value e "m_cellZ" = Ok cellZ /\
    FindProperty_value e "m_vecOrigin" = Ok offset /\
    let cell_width := Go.shl 1 (Go.uint_of_int (IntVal bits)) in
    let coordinate cell offset_component :=
      PrimFloat.add (float64_of_int (Go.wrap (cell * cell_width - 16384)))
                    offset_component in
    Position e
    = Ok (r3.mkVector
            (coordinate (IntVal cellX) (r3.X (VectorVal offset)))
            (coordinate (IntVal cellY) (r3.Y (VectorVal offset)))
            (coordinate (IntVal cellZ) (r3.Z (VectorVal offset)))) /\
    (0 <= IntVal bits <= 62 -> cell_width = 2 ^ IntVal bits) /\
    (forall cell, Go.is_int (cell * cell_width - 16384) ->
       Go.wrap (cell * cell_width - 16384) = cell * cell_width - 16384).
Proof.
  intros Hb Hx Hy Hz Ho.
  destruct (FindProperty_value_unique e _ Hb) as (ib & pb & _ & _ & Eb).
  destruct (FindProperty_value_unique e _ Hx) as (ix & px & _ & _ & Ex).
  destruct (FindProperty_value_unique e _ Hy) as (iy & py & _ & _ & Ey).
  destruct (FindProperty_value_unique e _ Hz) as (iz & pz & _ & _ & Ez).
  destruct (FindProperty_value_unique e _ Ho) as (io & po & _ & _ & Eo).
  exists (value pb), (value px), (value py), (value pz), (value po).
  do 5 (split; [assumption|]).
  cbv zeta. split; [|split].
  - unfold Position. rewrite Eb, Ex, Ey, Ez, Eo. cbn [Obind].
    unfold coordFromCell. rewrite !sub_mul_wrap. reflexivity.
  - apply shl_1_pow2.
  - intros cell. apply wrap_small.
Qed.

(** ** The properties on the sample data *)

Lemma readFieldIndex_follows_spec_witness :
  readFieldIndex 0 true [false; true; true; false; false]
  = field_index_spec 0 true [false; true; true; false; false].
Proof.
  apply (proj2 (readFieldIndex_follows_spec [false; true; true; false; false] 0 true));
    unfold Go.int_min, Go.int_max; lia.
Defined.

Lemma sample_run_values : index_run true (-1) (index_bits ++ value_bits) [0; 2] value_bits.
Proof. apply readFieldIndices_run. vm_compute. reflexivity. Qed.

(** The sample record on the observed entity: the handlers of property 0,
    then the handler of property 2, each with the value decoded. *)
Example ApplyUpdate_sample_log :
  st_log (snd (ApplyUpdate sample_decode (sample_state observed_props sample_record)))
  = [HandlerCalled (user_handler 1) (int_value 2);
     HandlerCalled (user_handler 2) (int_value 2);
     HandlerCalled (user_handler 3) (int_value 1)].
Proof. vm_compute. reflexivity. Qed.

Lemma ApplyUpdate_fires_in_index_order_witness :
  let s := sample_state observed_props sample_record in
  StronglySorted Z.lt [0; 2] /\
  exists s',
    ApplyUpdate sample_decode s = (Ok tt, s') /\
    st_log s' = [HandlerCalled (user_handler 1) (int_value 2);
                 HandlerCalled (user_handler 2) (int_value 2);
                 HandlerCalled (user_handler 3) (int_value 1)].
Proof.
  intros s.
  destruct (ApplyUpdate_fires_in_index_order sample_decode s true
              (index_bits ++ value_bits) [0; 2] value_bits)
    as (Hsorted & _ & _ & Hlog).
  - vm_compute. reflexivity.
  - reflexivity.
  - exact sample_run_values.
  - split; [exact Hsorted|].
    exists (snd (ApplyUpdate sample_decode s)).
    assert (H : ApplyUpdate sample_decode s = (Ok tt, snd (ApplyUpdate sample_decode s)))
      by (vm_compute; reflexivity).
    split; [exact H|].
    destruct (Hlog _ H) as [_ ->]. vm_compute. reflexivity.
Defined.

Lemma observed_adders_allocated :
  adders_allocated (sample_state observed_props sample_record).
Proof.
  unfold adders_allocated, sample_state, observed_props, sample_prop. cbn.
  repeat (first [apply Forall_nil | apply Forall_cons; split]).
  all: try exact I.
  all: intros m H; discriminate H.
Qed.

Lemma baseline_matches_direct_update_witness :
  exists baseline s1' s_direct s_base,
    initializeBaseline sample_decode (sample_state observed_props sample_record)
    = (Ok baseline, s1') /\
    ApplyUpdate sample_decode (sample_state fresh_props sample_record)
    = (Ok tt, s_direct) /\
    applyBaseline baseline (sample_state fresh_props sample_record) = (Ok tt, s_base) /\
    map value (props (st_entity s_base)) = map value (props (st_entity s_direct)) /\
    st_log s_base = [].
Proof.
  assert (Hinit : exists baseline s1',
            initializeBaseline sample_decode (sample_state observed_props sample_record)
            = (Ok baseline, s1')).
  { eexists. eexists. vm_compute. reflexivity. }
  destruct Hinit as (baseline & s1' & Hinit).
  destruct (baseline_matches_direct_update sample_decode
              (sample_state observed_props sample_record) baseline s1'
              (sample_state fresh_props sample_record)
              (map_to_list baseline).*1 Hinit observed_adders_allocated)
    as (s_direct & s_base & Hd & Hb & Hv & Hl & _).
  - reflexivity.
  - unfold no_handlers. cbn. repeat constructor.
  - reflexivity.
  - reflexivity.
  - exists baseline, s1', s_direct, s_base. auto.
Defined.

Lemma ApplyUpdate_index_out_of_range_witness :
  let s := sample_state [sample_prop "a" 2 []] sample_record in
  exists p s',
    ApplyUpdate sample_decode s = (Panic p, s') /\
    length (props (st_entity s')) = 1%nat /\
    forall before idx rest s'',
      [0; 2] = before ++ idx :: rest ->
      ~ in_range (st_entity s) idx ->
      for_each before (update_prop sample_decode) (set_reader value_bits s) = (Ok tt, s'') ->
      p = IndexOutOfRange idx 1 /\ s' = s''.
Proof.
  apply (ApplyUpdate_index_out_of_range sample_decode
           (sample_state [sample_prop "a" 2 []] sample_record) true
           (index_bits ++ value_bits) [0; 2] value_bits).
  - reflexivity.
  - exact sample_run_values.
  - apply Exists_cons_tl, Exists_cons_hd. unfold in_range. cbn. lia.
Defined.

(** The panic of the sample record on the one-property entity, evaluated. *)
Example ApplyUpdate_out_of_range_sample :
  fst (ApplyUpdate sample_decode (sample_state [sample_prop "a" 2 []] sample_record))
  = Panic (IndexOutOfRange 2 1).
Proof. vm_compute. reflexivity. Qed.

Lemma FindProperty_cases_witness :
  (exists i p, FindProperty (mkEntity 0 1 fresh_props [] []) "b" = Ok (Some i) /\
               fresh_props !! i = Some p /\ Name p = "b") /\
  FindProperty (mkEntity 0 1 fresh_props [] []) "z" = Ok None /\
  FindProperty (mkEntity 0 1 duplicate_props [] []) "a" = Panic (DuplicateProperty "a").
Proof.
  split; [|split].
  - apply (proj1 (FindProperty_cases (mkEntity 0 1 fresh_props [] []) "b")). reflexivity.
  - apply (proj1 (proj2 (FindProperty_cases (mkEntity 0 1 fresh_props [] []) "z"))).
    reflexivity.
  - apply (proj2 (proj2 (FindProperty_cases (mkEntity 0 1 duplicate_props [] []) "a"))).
    cbn. lia.
Defined.

Lemma BindProperty_needs_unique_name_witness :
  BindProperty "z" (Pointer PInt (Some 0%nat)) ValTypeInt (sample_state fresh_props [])
  = (Panic NilPointer, sample_state fresh_props []) /\
  BindProperty "a" (Pointer PInt (Some 0%nat)) ValTypeInt (sample_state duplicate_props [])
  = (Panic (DuplicateProperty "a"), sample_state duplicate_props []) /\
  exists i p, fresh_props !! i = Some p /\ Name p = "b" /\
    BindProperty "b" (Pointer PInt (Some 0%nat)) ValTypeInt (sample_state fresh_props [])
    = (Ok tt, with_prop i (with_handler p (binder CaseInt (Pointer PInt (Some 0%nat))))
                (sample_state fresh_props [])).
Proof.
  split; [|split].
  - apply (proj1 (BindProperty_needs_unique_name (sample_state fresh_props []) "z"
                    (Pointer PInt (Some 0%nat)) ValTypeInt)). reflexivity.
  - apply (proj1 (proj2 (BindProperty_needs_unique_name (sample_state duplicate_props [])
                           "a" (Pointer PInt (Some 0%nat)) ValTypeInt))). cbn. lia.
  - apply (proj2 (proj2 (BindProperty_needs_unique_name (sample_state fresh_props [])
                           "b" (Pointer PInt (Some 0%nat)) ValTypeInt))). reflexivity.
Defined.

Lemma Bind_writes_converted_value_witness :
  exists s1 s3,
    Bind (Some 0%nat) (variable_of_kind ValTypeBoolInt 5%nat) ValTypeBoolInt
         (sample_state fresh_props [])
    = (Ok tt, s1) /\
    st_heap s1 !! 5%nat = None /\
    update_prop sample_decode 0 (set_reader [true; false] s1) = (Ok tt, s3) /\
    st_heap s3 !! 5%nat = Some (VBool true).
Proof.
  destruct (Bind_writes_converted_value sample_decode (sample_state fresh_props [])
              0%nat (sample_prop "a" 2 []) ValTypeBoolInt
              (variable_of_kind ValTypeBoolInt 5%nat) eq_refl)
    as (s1 & HB & Hheap & _ & Hp & _ & Hupd).
  - cbn. auto.
  - destruct (Hupd 5%nat (set_reader [true; false] s1) _ [] (int_value 1) []
                eq_refl Hp eq_refl eq_refl eq_refl) as (s3 & H3 & Hh3 & _).
    exists s1, s3. split; [exact HB|]. split; [rewrite Hheap; reflexivity|].
    split; [exact H3|exact Hh3].
Defined.

Lemma Destroy_fires_on_every_call_witness :
  let s := mkState (mkEntity 0 1 [] [] [user_func 7; user_func 8]) [] ∅ [] [] in
  Destroy s = (Ok tt, set_log [FuncCalled (user_func 7); FuncCalled (user_func 8)] s) /\
  (Destroy ;;; Destroy)%action s
  = (Ok tt, set_log [FuncCalled (user_func 7); FuncCalled (user_func 8);
                     FuncCalled (user_func 7); FuncCalled (user_func 8)] s).
Proof.
  apply (Destroy_fires_on_every_call
           (mkState (mkEntity 0 1 [] [] [user_func 7; user_func 8]) [] ∅ [] [])).
  cbn. repeat constructor; discriminate.
Defined.

(** C7, as stated, fails: a callback registered once has been called twice
    after two calls of [Destroy]. *)
Lemma Destroy_twice_calls_twice :
  st_log (snd ((OnDestroy (user_func 7) ;;; Destroy ;;; Destroy)%action
                 (sample_state [] [])))
  = [FuncCalled (user_func 7); FuncCalled (user_func 7)].
Proof. vm_compute. reflexivity. Qed.

Lemma initializeBaseline_leaves_no_handler_witness :
  exists baseline s',
    initializeBaseline sample_decode (sample_state observed_props sample_record)
    = (Ok baseline, s') /\
    Forall (fun p => updateHandlers p = []) (props (st_entity s')).
Proof.
  assert (Hinit : exists baseline s',
            initializeBaseline sample_decode (sample_state observed_props sample_record)
            = (Ok baseline, s')).
  { eexists. eexists. vm_compute. reflexivity. }
  destruct Hinit as (baseline & s' & Hinit).
  exists baseline, s'. split; [exact Hinit|].
  exact (initializeBaseline_leaves_no_handler sample_decode _ _ _ Hinit).
Defined.

Lemma Position_formula_witness :
  Position position_entity
  = Ok (r3.mkVector (-16062.5)%float (-16384)%float (-16384)%float).
Proof.
  destruct (Position_formula position_entity eq_refl eq_refl eq_refl eq_refl eq_refl)
    as (bits & cellX & cellY & cellZ & offset & Eb & Ex & Ey & Ez & Eo & HP & _).
  vm_compute in Eb, Ex, Ey, Ez, Eo.
  injection Eb as <-. injection Ex as <-. injection Ey as <-. injection Ez as <-.
  injection Eo as <-.
  rewrite HP. vm_compute. reflexivity.
Defined.

(** ** What the index decoder reads and what it can express *)

Lemma ReadInt_bits_of n v rest :
  0 <= v < 2 ^ Z.of_nat n -> ReadInt n (bits_of n v ++ rest) = Some (v, rest).
Proof.
  revert v. induction n as [|n IH]; intros v Hv.
  - cbn in *. unfold Rret. f_equal. f_equal. lia.
  - rewrite Nat2Z.inj_succ, Z.pow_succ_r in Hv by lia.
    cbn [bits_of app ReadInt]. rewrite IH.
    + rewrite (Z.div2_odd v) at 3. do 2 f_equal. lia.
    + rewrite Z.div2_div. split; [apply Z.div_pos; lia|].
      apply Z.div_lt_upper_bound; lia.
Qed.

Lemma ReadInt_inv n r v r' :
  ReadInt n r = Some (v, r') -> r = bits_of n v ++ r'.
Proof.
  revert r v. induction n as [|n IH]; intros r v H.
  - injection H as <- <-. reflexivity.
  - cbn [ReadInt] in H. destruct r as [|b r]; [discriminate|].
    destruct (ReadInt n r) as [[w r'']|] eqn:E; [|discriminate].
    injection H as <- <-. apply IH in E. cbn [bits_of app].
    assert (Z.odd (Z.b2z b + 2 * w) = b) as ->.
    { rewrite Z.odd_add_mul_2. destruct b; reflexivity. }
    assert (Z.div2 (Z.b2z b + 2 * w) = w) as ->.
    { rewrite Z.div2_div. symmetry. apply (Z.div_unique _ _ _ (Z.b2z b)).
      - left. destruct b; cbn; lia.
      - lia. }
    rewrite <- E. reflexivity.
Qed.

(** Evaluates the powers of two that bound what [ReadInt] reads. *)
Ltac eval_pow2 :=
  repeat match goal with
         | |- context [2 ^ Z.of_nat ?n] =>
             let v := eval vm_compute in (2 ^ Z.of_nat n) in
             change (2 ^ Z.of_nat n) with v
         end.

(** Bits 5 and 6 of a 7-bit value made of five low bits and a pattern. *)
Lemma pattern_bits a :
  0 <= a < 32 ->
  (Z.testbit a 5 = false /\ Z.testbit a 6 = false) /\
  (Z.testbit (a + 32) 5 = true /\ Z.testbit (a + 32) 6 = false) /\
  (Z.testbit (a + 64) 5 = false /\ Z.testbit (a + 64) 6 = true) /\
  (Z.testbit (a + 96) 5 = true /\ Z.testbit (a + 96) 6 = true).
Proof.
  intros Ha.
  pose proof (forallb_below 32
    (fun a => negb (Z.testbit a 5) && negb (Z.testbit a 6)
              && Z.testbit (a + 32) 5 && negb (Z.testbit (a + 32) 6)
              && negb (Z.testbit (a + 64) 5) && Z.testbit (a + 64) 6
              && Z.testbit (a + 96) 5 && Z.testbit (a + 96) 6)%bool) as H.
  specialize (H ltac:(vm_compute; reflexivity) a Ha). cbv beta in H.
  repeat (apply andb_prop in H as [H ?]).
  repeat match goal with
         | H : negb _ = true |- _ => apply negb_true_iff in H
         end.
  auto 10.
Qed.

Lemma raw_offset_encode d rest :
  0 <= d <= 4095 -> raw_offset false (encode_offset d ++ rest) = Some (d, rest).
Proof.
  intros Hd. unfold raw_offset, encode_offset, read_uint.
  pose proof (Z.mod_pos_bound d 32 ltac:(lia)) as Ha.
  pose proof (Z.div_mod d 32 ltac:(lia)) as Hdm.
  destruct (pattern_bits (d mod 32) Ha) as ((B0 & C0) & (B1 & C1) & (B2 & C2) & (B3 & C3)).
  assert (Hmod : forall k, (d mod 32 + 32 * k) mod 32 = d mod 32).
  { intros k. replace (d mod 32 + 32 * k) with (d mod 32 + k * 32) by lia.
    rewrite Z.mod_add by lia. apply Z.mod_mod. lia. }
  assert (Hext : forall (k : nat) pat, 0 <= d / 32 < 2 ^ Z.of_nat k ->
     pat mod 32 = d mod 32 ->
     option_map (fun '(ext, r3) => (replace_bits_5_6 pat ext, r3))
                (ReadInt k (bits_of k (d / 32) ++ rest)) = Some (d, rest)).
  { intros k pat Hk Hpat. rewrite ReadInt_bits_of by exact Hk. cbn [option_map].
    unfold replace_bits_5_6. rewrite Hpat. do 2 f_equal. lia. }
  destruct (Z.ltb_spec d 32).
  { rewrite ReadInt_bits_of by (eval_pow2; lia).
    assert (Hsmall : d mod 32 = d) by (apply Z.mod_small; lia).
    rewrite Hsmall in B0, C0. rewrite B0, C0. reflexivity. }
  assert (Hq : 1 <= d / 32 < 128).
  { split; [apply Z.div_le_lower_bound; lia|apply Z.div_lt_upper_bound; lia]. }
  destruct (Z.ltb_spec d 128).
  { rewrite <- app_assoc. rewrite ReadInt_bits_of by (eval_pow2; lia). rewrite B1, C1.
    apply Hext; [|apply (Hmod 1)].
    split; [lia|]. eval_pow2; apply Z.div_lt_upper_bound; lia. }
  destruct (Z.ltb_spec d 512).
  { rewrite <- app_assoc. rewrite ReadInt_bits_of by (eval_pow2; lia). rewrite B2, C2.
    apply Hext; [|apply (Hmod 2)].
    split; [lia|]. eval_pow2; apply Z.div_lt_upper_bound; lia. }
  rewrite <- app_assoc. rewrite ReadInt_bits_of by (eval_pow2; lia). rewrite B3, C3.
  apply Hext; [|apply (Hmod 3)].
  split; [lia|]. eval_pow2; apply Z.div_lt_upper_bound; lia.
Qed.

Lemma field_index_spec_encode previous newWay d rest :
  0 <= d <= 4094 ->
  field_index_spec previous newWay (encode_delta newWay d ++ rest)
  = Some (previous + 1 + d, rest).
Proof.
  intros Hd. unfold field_index_spec, encode_delta, read_bit.
  destruct newWay.
  - destruct (Z.eqb_spec d 0) as [->|Hne].
    { cbn. do 2 f_equal. lia. }
    destruct (Z.ltb_spec d 8).
    + cbn [app ReadBit]. unfold raw_offset, read_bit, read_uint. cbn [ReadBit].
      rewrite ReadInt_bits_of by (eval_pow2; lia).
      destruct (Z.eqb_spec d 4095); [lia|reflexivity].
    + cbn [app ReadBit]. unfold raw_offset at 1, read_bit. cbn [ReadBit].
      pose proof (raw_offset_encode d rest ltac:(lia)) as H0.
      unfold raw_offset in H0. cbv iota in H0. rewrite H0.
      destruct (Z.eqb_spec d 4095); [lia|reflexivity].
  - rewrite raw_offset_encode by lia.
    destruct (Z.eqb_spec d 4095); [lia|reflexivity].
Qed.

Lemma field_index_spec_end_marker previous newWay rest :
  field_index_spec previous newWay (end_marker newWay ++ rest) = Some (-1, rest).
Proof.
  unfold field_index_spec, end_marker, read_bit.
  pose proof (raw_offset_encode 4095 rest ltac:(lia)) as H0.
  change (encode_offset 4095) with (repeat true 14) in H0.
  destruct newWay.
  - cbn [app ReadBit]. unfold raw_offset at 1, read_bit. cbn [ReadBit].
    unfold raw_offset in H0. cbv iota in H0.
    change (repeat true 14 ++ rest) with ([] ++ repeat true 14 ++ rest) in H0.
    cbn [app] in H0 |- *. rewrite H0. reflexivity.
  - cbn [app]. rewrite H0. reflexivity.
Qed.

Lemma raw_offset_consumed new_way r res r' :
  raw_offset new_way r = Some (res, r') ->
  (length r' + 3 <= length r <= length r' + 15)%nat.
Proof.
  unfold raw_offset, read_bit, read_uint. intros H.
  assert (Hext : forall k a rr x rr',
     option_map (fun '(ext, r3) => (replace_bits_5_6 a ext, r3)) (ReadInt k rr) = Some (x, rr') ->
     length rr = (k + length rr')%nat).
  { intros k a rr x rr' Hx.
    destruct (ReadInt k rr) as [[ext r3]|] eqn:Ek; [|discriminate].
    injection Hx as _ <-. apply ReadInt_length in Ek. exact Ek. }
  assert (Hr1 : forall r1,
    match (if new_way then ReadBit r else Some (false, r)) with
    | Some (b, r1') => r1' = r1 ->
        (length r1 <= length r <= length r1 + 1)%nat /\
        (b = true -> length r = S (length r1))
    | None => True
    end).
  { intros r1. destruct new_way; [|intros <-; split; [lia|discriminate]].
    destruct (ReadBit r) as [[b r1']|] eqn:E; [|exact I].
    intros <-. apply ReadBit_length in E. lia. }
  destruct (if new_way then ReadBit r else Some (false, r)) as [[[] r1]|]; [| |discriminate];
    destruct (Hr1 r1 eq_refl) as [Hle Hb].
  - apply ReadInt_length in H. specialize (Hb eq_refl). lia.
  - destruct (ReadInt 7 r1) as [[a r2]|] eqn:E7; [|discriminate].
    apply ReadInt_length in E7.
    destruct (Z.testbit a 6), (Z.testbit a 5); try (apply Hext in H; lia).
    injection H as _ <-. lia.
Qed.

(** X1. One call of the decoder, from a previous index of -1 or more that
    leaves room below the largest [int]: it yields the end marker -1 or an
    index above the previous one by at most 4095, and it consumes at least
    one bit and at most sixteen, leaving a suffix of what it was given. *)
Theorem readFieldIndex_step_bounds (previous : Z) (newWay : bool)
    (r : BitReader) (idx : Z) (r' : BitReader) :
  readFieldIndex previous newWay r = Some (idx, r') ->
  -1 <= previous -> previous + 4096 <= Go.int_max ->
  (idx = -1 \/ previous < idx <= previous + 4095) /\
  exists consumed, r = consumed ++ r' /\ (1 <= length consumed <= 16)%nat.
Proof.
  intros H Hlo Hhi. split; [eapply readFieldIndex_step; eassumption|].
  rewrite readFieldIndex_as_int in H. unfold as_int in H.
  destruct (field_index_spec previous newWay r) as [[v r1]|] eqn:E; [|discriminate].
  injection H as _ <-. revert E. unfold field_index_spec, read_bit.
  assert (Hraw : forall rr res rr', raw_offset newWay rr = Some (res, rr') ->
            exists c, rr = c ++ rr' /\ (3 <= length c <= 15)%nat).
  { intros rr res rr' Hr. pose proof (raw_offset_consumed _ _ _ _ Hr) as Hc.
    exists (take (length rr - length rr') rr). split.
    - revert Hr. unfold raw_offset, read_bit, read_uint.
      assert (Hsuf : forall k a x y z,
        option_map (fun '(ext, r3) => (replace_bits_5_6 a ext, r3)) (ReadInt k x)
        = Some (y, z) -> exists c, x = c ++ z).
      { intros k a x y z Hx. destruct (ReadInt k x) as [[ext r3]|] eqn:Ek; [|discriminate].
        injection Hx as _ <-. apply ReadInt_inv in Ek. eauto. }
      intros Hr.
      assert (exists c, rr = c ++ rr') as [c ->].
      { destruct newWay.
        - destruct rr as [|b rr]; [discriminate|]. cbn [ReadBit] in Hr. destruct b.
          + apply ReadInt_inv in Hr. exists (true :: bits_of 3 res). rewrite Hr. reflexivity.
          + destruct (ReadInt 7 rr) as [[a r2]|] eqn:E7; [|discriminate].
            apply ReadInt_inv in E7. subst rr.
            destruct (Z.testbit a 6), (Z.testbit a 5);
              try (apply Hsuf in Hr as [c ->];
                   exists (false :: bits_of 7 a ++ c); cbn [app];
                   rewrite <- app_assoc; reflexivity).
            injection Hr as _ <-. exists (false :: bits_of 7 a). reflexivity.
        - destruct (ReadInt 7 rr) as [[a r2]|] eqn:E7; [|discriminate].
          apply ReadInt_inv in E7. subst rr.
          destruct (Z.testbit a 6), (Z.testbit a 5);
            try (apply Hsuf in Hr as [c ->];
                 exists (bits_of 7 a ++ c); rewrite <- app_assoc; reflexivity).
          injection Hr as _ <-. exists (bits_of 7 a). reflexivity. }
      rewrite length_app. replace (length c + length rr' - length rr')%nat
        with (length c) by lia.
      rewrite take_app_length. reflexivity.
    - rewrite length_take. lia. }
  destruct newWay.
  - destruct r as [|b r]; [discriminate|]. cbn [ReadBit]. destruct b.
    + intros [= _ <-]. exists [true]. split; [reflexivity|cbn; lia].
    + destruct (raw_offset true r) as [[res r2]|] eqn:Eo; [|discriminate].
      destruct (Hraw _ _ _ Eo) as (c & -> & Hc).
      destruct (res =? 4095); intros [= _ <-]; exists (false :: c);
        (split; [reflexivity|cbn; lia]).
  - destruct (raw_offset false r) as [[res r2]|] eqn:Eo; [|discriminate].
    destruct (Hraw _ _ _ Eo) as (c & -> & Hc).
    destruct (res =? 4095); intros [= _ <-]; exists c; (split; [reflexivity|lia]).
Qed.

Lemma readFieldIndex_step_bounds_witness :
  (1 = -1 \/ 0 < 1 <= 0 + 4095) /\
  exists consumed, [false; true; false; false; false; true] = consumed ++ [true] /\
                   (1 <= length consumed <= 16)%nat.
Proof.
  apply (readFieldIndex_step_bounds 0 true [false; true; false; false; false; true] 1 [true]).
  - reflexivity.
  - lia.
  - unfold Go.int_max. lia.
Defined.

Lemma all_ones_7 a :
  0 <= a < 128 -> Z.testbit a 5 = true -> Z.testbit a 6 = true -> a mod 32 = 31 ->
  a = 127.
Proof.
  intros Ha.
  pose proof (forallb_below 128
    (fun a => implb (Z.testbit a 5 && Z.testbit a 6 && (a mod 32 =? 31)) (a =? 127))%bool)
    as H.
  specialize (H ltac:(vm_compute; reflexivity) a Ha). cbv beta in H.
  intros H5 H6 Hm. rewrite H5, H6 in H. apply Z.eqb_eq in Hm. rewrite Hm in H.
  cbn in H. lia.
Qed.

(** The raw offset 0xFFF is read from fourteen one-bits only. *)
Lemma raw_offset_4095 new_way r r' :
  raw_offset new_way r = Some (4095, r') ->
  r = (if new_way then [false] else []) ++ repeat true 14 ++ r'.
Proof.
  assert (Hbody : forall r1,
    match read_uint 7 r1 with
    | None => None
    | Some (res, r2) =>
        match Z.testbit res 6, Z.testbit res 5 with
        | false, false => Some (res, r2)
        | false, true =>
            option_map (fun '(ext, r3) => (replace_bits_5_6 res ext, r3)) (read_uint 2 r2)
        | true, false =>
            option_map (fun '(ext, r3) => (replace_bits_5_6 res ext, r3)) (read_uint 4 r2)
        | true, true =>
            option_map (fun '(ext, r3) => (replace_bits_5_6 res ext, r3)) (read_uint 7 r2)
        end
    end = Some (4095, r') -> r1 = repeat true 14 ++ r').
  { intros r1. unfold read_uint.
    destruct (ReadInt 7 r1) as [[a r2]|] eqn:E7; [|discriminate].
    pose proof (ReadInt_range _ _ _ _ E7) as Ha. change (2 ^ Z.of_nat 7) with 128 in Ha.
    pose proof (Z.mod_pos_bound a 32 ltac:(lia)) as Hm.
    assert (Hext : forall k, (k <= 7)%nat ->
      option_map (fun '(ext, r3) => (replace_bits_5_6 a ext, r3)) (ReadInt k r2)
      = Some (4095, r') ->
      exists ext, ReadInt k r2 = Some (ext, r') /\ 0 <= ext < 2 ^ Z.of_nat k /\
                  a mod 32 + ext * 32 = 4095).
    { intros k Hk Hx. destruct (ReadInt k r2) as [[ext r3]|] eqn:Ek; [|discriminate].
      pose proof (ReadInt_range _ _ _ _ Ek). injection Hx as Hx <-.
      exists ext. unfold replace_bits_5_6 in Hx. auto. }
    destruct (Z.testbit a 6) eqn:B6, (Z.testbit a 5) eqn:B5; intros H.
    - apply Hext in H as (ext & Ek & He & Hsum); [|lia].
      change (2 ^ Z.of_nat 7) with 128 in He.
      assert (ext = 127) as -> by lia.
      assert (a = 127) as -> by (apply all_ones_7; [lia|assumption|assumption|lia]).
      apply ReadInt_inv in E7, Ek. subst r1 r2. reflexivity.
    - apply Hext in H as (ext & _ & He & Hsum); [|lia].
      change (2 ^ Z.of_nat 4) with 16 in He. lia.
    - apply Hext in H as (ext & _ & He & Hsum); [|lia].
      change (2 ^ Z.of_nat 2) with 4 in He. lia.
    - injection H as -> _. lia. }
  unfold raw_offset, read_bit. destruct new_way.
  - destruct r as [|b r]; [discriminate|]. cbn [ReadBit]. destruct b.
    + intros H. apply ReadInt_range in H. cbn in H. lia.
    + intros H. apply Hbody in H. subst r. reflexivity.
  - intros H. apply Hbody in H. subst r. reflexivity.
Qed.

(** X2. The end marker is unambiguous: from a previous index of -1 or more
    that leaves room below the largest [int], the decoder answers -1 exactly
    when it is given the fourteen one-bits of 0xFFF (after the two zero bits
    that decline the short forms, when [newWay] is set). *)
Theorem readFieldIndex_end_marker (previous : Z) (newWay : bool) (r r' : BitReader) :
  -1 <= previous -> previous + 4096 <= Go.int_max ->
  readFieldIndex previous newWay r = Some (-1, r') <-> r = end_marker newWay ++ r'.
Proof.
  intros Hlo Hhi. split.
  - intros H. rewrite readFieldIndex_as_int in H. unfold as_int in H.
    destruct (field_index_spec previous newWay r) as [[v r1]|] eqn:E; [|discriminate].
    injection H as Hv <-.
    pose proof (field_index_spec_step _ _ _ _ _ E) as [Hrange _].
    rewrite wrap_small in Hv
      by (unfold Go.is_int, Go.int_min, Go.int_max in *; lia).
    subst v. revert E. unfold field_index_spec, read_bit, end_marker.
    assert (Hraw : forall rr,
      match raw_offset newWay rr with
      | Some (res, r2) =>
          if res =? 4095 then Some (-1, r2) else Some (previous + 1 + res, r2)
      | None => None
      end = Some (-1, r1) ->
      rr = (if newWay then [false] else []) ++ repeat true 14 ++ r1).
    { intros rr. destruct (raw_offset newWay rr) as [[res r2]|] eqn:Eo; [|discriminate].
      pose proof (raw_offset_range _ _ _ _ Eo) as Hres.
      destruct (Z.eqb_spec res 4095) as [->|Hne].
      - intros [= <-]. apply raw_offset_4095, Eo.
      - intros [= ? _]. lia. }
    destruct newWay.
    + destruct r as [|b r]; [discriminate|]. cbn [ReadBit]. destruct b.
      * intros [= ? _]. lia.
      * intros H. apply Hraw in H. subst r. reflexivity.
    + intros H. apply Hraw in H. subst r. reflexivity.
  - intros ->. rewrite readFieldIndex_as_int, field_index_spec_end_marker. reflexivity.
Qed.

Lemma readFieldIndex_end_marker_witness :
  readFieldIndex 5 true ([false; false] ++ repeat true 14 ++ [true; false])
  = Some (-1, [true; false]).
Proof.
  apply (proj2 (readFieldIndex_end_marker 5 true _ [true; false] ltac:(lia)
                  ltac:(unfold Go.int_max; lia))).
  reflexivity.
Defined.

(** X3. Every offset from 0 to 4094 can be written: the decoder reads
    [encode_delta newWay d], whatever follows it, as the previous index plus
    one plus [d] (in Go's [int]) and leaves what follows. *)
Theorem readFieldIndex_encode_delta (lastIndex : Z) (newWay : bool) (d : Z)
    (rest : BitReader) :
  0 <= d <= 4094 ->
  readFieldIndex lastIndex newWay (encode_delta newWay d ++ rest)
  = Some (Go.wrap (lastIndex + 1 + d), rest).
Proof.
  intros Hd. rewrite readFieldIndex_as_int, field_index_spec_encode by exact Hd.
  reflexivity.
Qed.

Lemma readFieldIndex_encode_delta_witness :
  readFieldIndex 10 false (encode_delta false 4094 ++ [true])
  = Some (Go.wrap (10 + 1 + 4094), [true]).
Proof. apply (readFieldIndex_encode_delta 10 false 4094 [true]). lia. Defined.

(** The loop of [ApplyUpdate] on a written list. *)
Lemma index_run_encode newWay l :
  forall previous rest,
    -1 <= previous -> steps_from previous l ->
    index_run newWay previous (encode_indices newWay previous l ++ rest) l rest.
Proof.
  induction l as [|idx l IH]; intros previous rest Hlo Hsteps.
  - apply run_end. rewrite readFieldIndex_as_int. cbn [encode_indices].
    rewrite field_index_spec_end_marker. reflexivity.
  - destruct Hsteps as (Hidx & Hmax & Hsteps). cbn [encode_indices].
    rewrite <- app_assoc.
    apply (run_next _ _ _ idx (encode_indices newWay idx l ++ rest)).
    + rewrite readFieldIndex_as_int, field_index_spec_encode by lia.
      cbn [as_int option_map]. do 2 f_equal.
      replace (previous + 1 + (idx - previous - 1)) with idx by lia.
      apply wrap_small. unfold Go.is_int, Go.int_min. lia.
    + lia.
    + apply IH; [lia|exact Hsteps].
Qed.

(** X4. Every list of indices that starts above [previous] (itself -1 or
    more), goes up in steps of at most 4095 and stays within [int] can be
    written, and the index loop of [ApplyUpdate] reads it back: it returns
    exactly that list and leaves the reader on what follows. *)
Theorem readFieldIndices_encode_indices (newWay : bool) (l : list Z) (rest : BitReader) :
  steps_from (-1) l ->
  readFieldIndices (-1) newWay [] (encode_indices newWay (-1) l ++ rest) = Some (l, rest).
Proof.
  intros Hsteps. apply readFieldIndices_run, index_run_encode; [lia|exact Hsteps].
Qed.

Lemma readFieldIndices_encode_indices_witness :
  readFieldIndices (-1) true [] (encode_indices true (-1) [0; 1; 40; 4000] ++ [true])
  = Some ([0; 1; 40; 4000], [true]).
Proof.
  apply (readFieldIndices_encode_indices true [0; 1; 40; 4000] [true]).
  cbn. unfold Go.int_max. lia.
Defined.

(** ** Registration and firing *)

Lemma for_each_OnUpdate i hs :
  forall p s,
    props (st_entity s) !! i = Some p ->
    for_each hs (OnUpdate (Some i)) s
    = (Ok tt, with_prop i (mkProperty (entry p) (updateHandlers p ++ hs) (value p)) s).
Proof.
  induction hs as [|h hs IH]; intros p s Hp.
  - cbn. rewrite app_nil_r. unfold with_prop.
    rewrite list_insert_id by (rewrite Hp; destruct p; reflexivity).
    destruct s as [[] ? ? ? ?]. reflexivity.
  - cbn [for_each]. unfold Mbind. rewrite (OnUpdate_some i p h s Hp).
    rewrite (IH (with_handler p h)).
    + unfold with_prop, with_handler. cbn. rewrite list_insert_insert_eq.
      rewrite <- app_assoc. reflexivity.
    + cbn. apply list_lookup_insert_eq. eapply lookup_lt_Some, Hp.
Qed.

(** X5. Handlers registered with [OnUpdate] are called in the order of their
    registration, after those registered before, all with the property's
    current value: registering [hs] one by one and firing is calling the
    earlier handlers followed by [hs]. *)
Theorem OnUpdate_then_fire (s : State) (i : nat) (p : Property)
    (hs : list PropertyUpdateHandler) :
  props (st_entity s) !! i = Some p ->
  (for_each hs (OnUpdate (Some i)) ;;; firePropertyUpdate (Some i))%action s
  = call_handlers (updateHandlers p ++ hs) (value p)
      (with_prop i (mkProperty (entry p) (updateHandlers p ++ hs) (value p)) s).
Proof.
  intros Hp. unfold Mbind. rewrite (for_each_OnUpdate i hs p s Hp).
  rewrite (firePropertyUpdate_call_handlers i
             (mkProperty (entry p) (updateHandlers p ++ hs) (value p))).
  - reflexivity.
  - cbn. apply list_lookup_insert_eq. eapply lookup_lt_Some, Hp.
Qed.

Lemma OnUpdate_then_fire_witness :
  st_log (snd ((for_each [user_handler 8; nil_handler; user_handler 9]
                  (OnUpdate (Some 2%nat)) ;;; firePropertyUpdate (Some 2%nat))%action
                 (sample_state observed_props [])))
  = [HandlerCalled (user_handler 3) zeroValue;
     HandlerCalled (user_handler 8) zeroValue;
     HandlerCalled (user_handler 9) zeroValue].
Proof.
  rewrite (OnUpdate_then_fire (sample_state observed_props []) 2
             (sample_prop "c" 1 [user_handler 3])
             [user_handler 8; nil_handler; user_handler 9] eq_refl).
  vm_compute. reflexivity.
Defined.

Lemma switch_valueType_unsupported kind :
  ~ In kind supported_kinds -> switch_valueType kind = None.
Proof.
  intros Hk. unfold switch_valueType, supported_kinds in *. cbn in Hk.
  repeat match goal with
         | |- context [?a =? ?b] =>
             destruct (Z.eqb_spec a b); [exfalso; apply Hk; subst; auto 10|]
         end.
  reflexivity.
Qed.

(** X6. [Bind] with a value type that is none of the seven constants does not
    fail: the [switch] selects no arm, a nil handler is registered, and
    [firePropertyUpdate] skips it, so the property fires exactly as it would
    with the handlers registered before, and nothing is ever written through
    the variable by this binding. *)
Theorem Bind_unsupported_kind (s : State) (i : nat) (p : Property)
    (variable : iface) (kind : propertyValueType) :
  props (st_entity s) !! i = Some p ->
  ~ In kind supported_kinds ->
  Bind (Some i) variable kind s = (Ok tt, with_prop i (with_handler p nil_handler) s) /\
  forall s2 p2 hs,
    props (st_entity s2) !! i = Some p2 ->
    updateHandlers p2 = hs ++ [nil_handler] ->
    firePropertyUpdate (Some i) s2 = call_handlers hs (value p2) s2.
Proof.
  intros Hp Hk. split.
  - unfold Bind. rewrite (switch_valueType_unsupported kind Hk).
    apply OnUpdate_some, Hp.
  - intros s2 p2 hs Hp2 Hhs.
    rewrite (firePropertyUpdate_call_handlers i p2 s2 Hp2), Hhs.
    unfold call_handlers. rewrite for_each_app.
    destruct (for_each hs _ s2) as [[[]|q] s3]; reflexivity.
Qed.

Lemma Bind_unsupported_kind_witness :
  exists s1,
    Bind (Some 1%nat) (Pointer PInt (Some 0%nat)) 7 (sample_state fresh_props [])
    = (Ok tt, s1) /\
    firePropertyUpdate (Some 1%nat) s1 = (Ok tt, s1).
Proof.
  destruct (Bind_unsupported_kind (sample_state fresh_props []) 1 (sample_prop "b" 3 [])
              (Pointer PInt (Some 0%nat)) 7 eq_refl) as [HB Hfire].
  - cbn. intros H. repeat destruct H as [H|H]; try discriminate H. exact H.
  - exists (with_prop 1 (with_handler (sample_prop "b" 3 []) nil_handler)
              (sample_state fresh_props [])).
    split; [exact HB|].
    rewrite (Hfire (with_prop 1 (with_handler (sample_prop "b" 3 []) nil_handler)
                      (sample_state fresh_props []))
                   (with_handler (sample_prop "b" 3 []) nil_handler) [] eq_refl eq_refl).
    reflexivity.
Defined.

(** ** Destruction with a nil callback *)

(** X7. [Destroy] calls its callbacks without a nil check: with a nil
    function registered, the callbacks registered before it are called, then
    [Destroy] panics, and the callbacks registered after it are not called. *)
Theorem Destroy_nil_callback (s : State) (before after : list func) :
  onDestroy (st_entity s) = before ++ nil_func :: after ->
  Forall (fun f => f <> nil_func) before ->
  Destroy s = (Panic NilPointer, set_log (st_log s ++ map FuncCalled before) s).
Proof.
  intros Hfs Hbefore. unfold Destroy, Mbind, get_entity. rewrite Hfs.
  rewrite for_each_app, (for_each_call_func before s Hbefore). reflexivity.
Qed.

Lemma Destroy_nil_callback_witness :
  Destroy (mkState (mkEntity 0 1 [] [] [user_func 1; nil_func; user_func 2]) [] ∅ [] [])
  = (Panic NilPointer,
     mkState (mkEntity 0 1 [] [] [user_func 1; nil_func; user_func 2]) [] ∅ []
             [FuncCalled (user_func 1)]).
Proof.
  apply (Destroy_nil_callback
           (mkState (mkEntity 0 1 [] [] [user_func 1; nil_func; user_func 2]) [] ∅ [] [])
           [user_func 1] [user_func 2] eq_refl).
  repeat constructor. discriminate.
Defined.

Lemma for_each_OnDestroy ds :
  forall s,
    for_each ds OnDestroy s
    = (Ok tt,
       set_entity (mkEntity (serverClass (st_entity s)) (id (st_entity s))
                            (props (st_entity s)) (onCreateFinished (st_entity s))
                            (onDestroy (st_entity s) ++ ds)) s).
Proof.
  induction ds as [|d ds IH]; intros s.
  - cbn. rewrite app_nil_r. destruct s as [[] ? ? ? ?]. reflexivity.
  - cbn [for_each]. unfold Mbind, OnDestroy at 1. rewrite IH. cbn.
    rewrite <- app_assoc. reflexivity.
Qed.

Lemma for_each_OnCreateFinished cs :
  forall s,
    for_each cs OnCreateFinished s
    = (Ok tt,
       set_entity (mkEntity (serverClass (st_entity s)) (id (st_entity s))
                            (props (st_entity s)) (onCreateFinished (st_entity s) ++ cs)
                            (onDestroy (st_entity s))) s).
Proof.
  induction cs as [|c cs IH]; intros s.
  - cbn. rewrite app_nil_r. destruct s as [[] ? ? ? ?]. reflexivity.
  - cbn [for_each]. unfold Mbind, OnCreateFinished at 1. rewrite IH. cbn.
    rewrite <- app_assoc. reflexivity.
Qed.

(** X8. The two callback lists are separate.  After registering [ds] with
    [OnDestroy] and [cs] with [OnCreateFinished], [Destroy] calls the
    callbacks registered for destruction, the earlier ones first, then [ds]
    in order, and none of [cs]: nothing in this file calls a callback
    registered with [OnCreateFinished]. *)
Theorem Destroy_after_registration (s : State) (ds cs : list func) :
  Forall (fun f => f <> nil_func) (onDestroy (st_entity s) ++ ds) ->
  exists s',
    (for_each ds OnDestroy ;;; for_each cs OnCreateFinished ;;; Destroy)%action s
    = (Ok tt, s') /\
    st_log s' = st_log s ++ map FuncCalled (onDestroy (st_entity s) ++ ds) /\
    onCreateFinished (st_entity s') = onCreateFinished (st_entity s) ++ cs /\
    onDestroy (st_entity s') = onDestroy (st_entity s) ++ ds.
Proof.
  intros Hfs. unfold Mbind at 1. rewrite for_each_OnDestroy.
  unfold Mbind at 1. rewrite for_each_OnCreateFinished. cbn [st_entity set_entity].
  unfold Destroy, Mbind, get_entity. cbn [st_entity set_entity onDestroy].
  rewrite for_each_call_func by exact Hfs.
  eexists. split; [reflexivity|]. cbn. auto.
Qed.

Lemma Destroy_after_registration_witness :
  exists s',
    (for_each [user_func 1; user_func 2] OnDestroy ;;;
     for_each [user_func 3] OnCreateFinished ;;; Destroy)%action (sample_state [] [])
    = (Ok tt, s') /\
    st_log s' = [FuncCalled (user_func 1); FuncCalled (user_func 2)].
Proof.
  destruct (Destroy_after_registration (sample_state [] [])
              [user_func 1; user_func 2] [user_func 3]) as (s' & H & Hlog & _).
  - cbn. repeat constructor; discriminate.
  - exists s'. split; [exact H|exact Hlog].
Defined.

(** ** Position: failures and the degenerate cell width *)

Lemma FindProperty_value_not_unique e n :
  count_name e n <> 1%nat ->
  FindProperty_value e n
  = Panic (if decide (count_name e n = 0%nat) then NilPointer else DuplicateProperty n).
Proof.
  unfold count_name, FindProperty_value, FindProperty, Obind. intros Hc.
  pose proof (FindProperty_loop_none (props e) 0 n) as H.
  destruct (count_occ String.string_dec (map Name (props e)) n) as [|[|c]];
    [|contradiction|]; rewrite H; reflexivity.
Qed.

(** X9. [Position] returns a vector exactly when each of the five names
    [m_cellbits], [m_cellX], [m_cellY], [m_cellZ] and [m_vecOrigin] is borne by
    one property; when none is borne twice and one is missing, it panics on
    the nil pointer [FindProperty] returned. *)
Theorem Position_returns_iff (e : Entity) :
  let names := ["m_cellbits"; "m_cellX"; "m_cellY"; "m_cellZ"; "m_vecOrigin"] in
  ((exists v, Position e = Ok v) <-> Forall (fun n => count_name e n = 1%nat) names) /\
  (Forall (fun n => (count_name e n <= 1)%nat) names ->
   Exists (fun n => count_name e n = 0%nat) names ->
   Position e = Panic NilPointer).
Proof.
  cbv zeta.
  assert (Hcase : forall n,
    (count_name e n = 1%nat /\ exists v, FindProperty_value e n = Ok v) \/
    (count_name e n <> 1%nat /\
     FindProperty_value e n
     = Panic (if decide (count_name e n = 0%nat) then NilPointer
              else DuplicateProperty n))).
  { intros n. destruct (decide (count_name e n = 1%nat)) as [H|H].
    - left. split; [exact H|].
      destruct (FindProperty_value_unique e n H) as (i & p & _ & _ & Hv). eauto.
    - right. split; [exact H|]. apply FindProperty_value_not_unique, H. }
  unfold Position.
  destruct (Hcase "m_cellbits") as [[C1 [v1 E1]]|[C1 E1]];
  destruct (Hcase "m_cellX") as [[C2 [v2 E2]]|[C2 E2]];
  destruct (Hcase "m_cellY") as [[C3 [v3 E3]]|[C3 E3]];
  destruct (Hcase "m_cellZ") as [[C4 [v4 E4]]|[C4 E4]];
  destruct (Hcase "m_vecOrigin") as [[C5 [v5 E5]]|[C5 E5]];
  rewrite ?E1; cbn [Obind]; rewrite ?E2; cbn [Obind]; rewrite ?E3; cbn [Obind];
  rewrite ?E4; cbn [Obind]; rewrite ?E5; cbn [Obind].
  all: split;
    [ split;
      [ intros [v Hv]; try discriminate Hv; repeat constructor; assumption
      | intros Hall;
        repeat match goal with
               | H : Forall _ (_ :: _) |- _ => apply Forall_cons in H as [? H]
               end;
        try contradiction; eauto ]
    | intros Hle Hex;
      repeat match goal with
             | H : Forall _ (_ :: _) |- _ => apply Forall_cons in H as [? H]
             end;
      repeat match goal with
             | H : Exists _ (_ :: _) |- _ => apply Exists_cons in H as [H|H]
             | H : Exists _ [] |- _ => apply Exists_nil in H; contradiction
             end;
      try congruence;
      repeat case_decide; try reflexivity; exfalso; lia ].
Qed.

Lemma Position_returns_iff_witness :
  Position (mkEntity 0 1 (take 3 position_props) [] []) = Panic NilPointer.
Proof.
  apply (proj2 (Position_returns_iff (mkEntity 0 1 (take 3 position_props) [] []))).
  - repeat (apply Forall_cons; split; [vm_compute; lia|]). apply Forall_nil. exact I.
  - apply Exists_cons_tl, Exists_cons_tl, Exists_cons_tl, Exists_cons_hd. reflexivity.
Defined.

Lemma shl_1_out_of_range bits :
  Go.is_int bits -> bits < 0 \/ 64 <= bits -> Go.shl 1 (Go.uint_of_int bits) = 0.
Proof.
  unfold Go.is_int, Go.int_min, Go.int_max, Go.shl, Go.uint_of_int, Go.uwrap.
  intros Hint Hout.
  assert (64 <= bits mod 2 ^ 64) as H.
  { destruct Hout as [Hneg|Hbig].
    - replace bits with (bits + 2 ^ 64 + (-1) * 2 ^ 64) by lia.
      rewrite Z.mod_add by lia. rewrite Z.mod_small; lia.
    - rewrite Z.mod_small; lia. }
  destruct (Z.leb_spec 64 (bits mod 2 ^ 64)); [reflexivity|lia].
Qed.

(** X10. The cell width is [1 << uint(m_cellbits)], and Go shifts every bit
    out for a count of 64 or more, which a negative exponent becomes when
    converted to [uint].  For such an exponent the cell width is 0 and
    [Position] no longer depends on the cell coordinates: each axis is
    float64(-16384) plus the offset component. *)
Theorem Position_degenerate_exponent (e : Entity)
    (bits cellX cellY cellZ offset : PropertyValue) :
  FindProperty_value e "m_cellbits" = Ok bits ->
  FindProperty_value e "m_cellX" = Ok cellX ->
  FindProperty_value e "m_cellY" = Ok cellY ->
  FindProperty_value e "m_cellZ" = Ok cellZ ->
  FindProperty_value e "m_vecOrigin" = Ok offset ->
  Go.is_int (IntVal bits) ->
  IntVal bits < 0 \/ 64 <= IntVal bits ->
  Position e
  = Ok (r3.mkVector
          (PrimFloat.add (float64_of_int (-16384)) (r3.X (VectorVal offset)))
          (PrimFloat.add (float64_of_int (-16384)) (r3.Y (VectorVal offset)))
          (PrimFloat.add (float64_of_int (-16384)) (r3.Z (VectorVal offset)))).
Proof.
  intros Eb Ex Ey Ez Eo Hint Hout.
  unfold Position. rewrite Eb, Ex, Ey, Ez, Eo. cbn [Obind].
  rewrite (shl_1_out_of_range _ Hint Hout).
  unfold coordFromCell. rewrite !sub_mul_wrap, !Z.mul_0_r. reflexivity.
Qed.

Lemma Position_degenerate_exponent_witness :
  Position degenerate_entity
  = Ok (r3.mkVector (-16382.5)%float (-16384)%float (-16384)%float).
Proof.
  rewrite (Position_degenerate_exponent degenerate_entity (int_value 64) (int_value 10) (int_value 0)
             (int_value 0)
             (mkPropertyValue (r3.mkVector 1.5%float 0%float 0%float) 0 [] EmptyString 0)
             eq_refl eq_refl eq_refl eq_refl eq_refl).
  - vm_compute. reflexivity.
  - vm_compute. split; discriminate.
  - right. cbn. lia.
Defined.

(** ** Applying a baseline *)

(** [applyBaseline] over keys in range, as a function of the property list. *)
Lemma applyBaseline_in_state keys (baseline : gmap Z PropertyValue) :
  forall s,
    Forall (in_range (st_entity s)) keys ->
    exists ps',
      applyBaseline_in keys baseline s
      = (Ok tt, set_entity (set_props ps' (st_entity s)) s) /\
      ps' = imap (fun i p =>
                    mkProperty (entry p) (updateHandlers p)
                      (if decide (Z.of_nat i ∈ keys)
                       then default zeroValue (baseline !! Z.of_nat i)
                       else value p))
                 (props (st_entity s)).
Proof.
  unfold applyBaseline_in.
  induction keys as [|k keys IH]; intros s Hkeys.
  - eexists. split; [|reflexivity]. cbn [for_each]. unfold Mret. do 2 f_equal.
    rewrite <- (list_fmap_id (props (st_entity s))) at 1.
    destruct s as [[sc i0 ps cf od] ? ? ? ?]. cbn. unfold set_entity, set_props. cbn.
    do 2 f_equal. apply list_eq. intros j.
    rewrite list_lookup_imap, list_lookup_fmap.
    destruct (ps !! j) as [[]|]; cbn; [|reflexivity].
    destruct (decide _) as [H|H]; [inversion H|reflexivity].
  - apply Forall_cons in Hkeys as [Hk Hkeys]. unfold in_range in Hk.
    destruct (lookup_lt_is_Some_2 (props (st_entity s)) (Z.to_nat k)) as [pk Hpk]; [lia|].
    cbn [for_each]. unfold Mbind at 1. unfold Mbind at 1, index_props.
    replace (0 <=? k) with true by (symmetry; apply Z.leb_le; lia).
    replace (k <? Z.of_nat (length (props (st_entity s)))) with true
      by (symmetry; apply Z.ltb_lt; lia).
    cbn [andb]. unfold Mbind at 1, load_prop. rewrite Hpk. unfold store_prop.
    set (s1 := set_entity _ s).
    destruct (IH s1) as (ps' & Hrun & Hps').
    { subst s1. unfold in_range in *. cbn. rewrite length_insert. exact Hkeys. }
    exists ps'. split; [exact Hrun|].
    rewrite Hps'. subst s1. cbn. apply list_eq. intros j.
    rewrite !list_lookup_imap.
    destruct (decide (j = Z.to_nat k)) as [->|Hne].
    + rewrite list_lookup_insert_eq by (eapply lookup_lt_Some, Hpk).
      rewrite Hpk. cbn. rewrite !Z2Nat.id by lia.
      rewrite (decide_True (P := k ∈ k :: keys)) by apply list_elem_of_here.
      destruct (decide (k ∈ keys)); reflexivity.
    + rewrite list_lookup_insert_ne by congruence.
      destruct (props (st_entity s) !! j) as [pj|]; [|reflexivity]. cbn.
      do 2 f_equal.
      destruct (decide (Z.of_nat j ∈ keys)) as [Hin|Hin].
      * rewrite decide_True by (apply list_elem_of_further, Hin). reflexivity.
      * rewrite decide_False; [reflexivity|].
        intros [Heq|Hin']%elem_of_cons; [lia|contradiction].
Qed.

(** X11. Go visits the keys of the baseline map in an unspecified order; the
    result of [applyBaseline] does not depend on it.  For keys that are
    indices of the property list, any two orders of visiting them end in the
    same state: the value of every property whose index is a key is the one
    the map holds for it, every other value, every entry and every handler
    list is as before, and no handler was called. *)
Theorem applyBaseline_order_independent (s : State) (baseline : gmap Z PropertyValue)
    (keys keys' : list Z) :
  keys ≡ₚ keys' ->
  Forall (in_range (st_entity s)) keys ->
  applyBaseline_in keys baseline s = applyBaseline_in keys' baseline s /\
  applyBaseline_in keys baseline s
  = (Ok tt,
     set_entity (set_props
       (imap (fun i p =>
                mkProperty (entry p) (updateHandlers p)
                  (if decide (Z.of_nat i ∈ keys)
                   then default zeroValue (baseline !! Z.of_nat i)
                   else value p))
             (props (st_entity s))) (st_entity s)) s).
Proof.
  intros Hperm Hkeys.
  destruct (applyBaseline_in_state keys baseline s Hkeys) as (ps & Hrun & ->).
  destruct (applyBaseline_in_state keys' baseline s) as (ps' & Hrun' & ->).
  { rewrite <- Hperm. exact Hkeys. }
  split; [|exact Hrun]. rewrite Hrun, Hrun'. do 3 f_equal.
  apply list_eq. intros j. rewrite !list_lookup_imap.
  destruct (props (st_entity s) !! j) as [pj|]; [|reflexivity]. cbn. do 2 f_equal.
  destruct (decide (Z.of_nat j ∈ keys)) as [Hin|Hin].
  - rewrite decide_True by (rewrite <- Hperm; exact Hin). reflexivity.
  - rewrite decide_False by (rewrite <- Hperm; exact Hin). reflexivity.
Qed.

Lemma applyBaseline_order_independent_witness :
  let baseline : gmap Z PropertyValue := <[2 := int_value 7]> (<[0 := int_value 5]> ∅) in
  applyBaseline_in [0; 2] baseline (sample_state observed_props [])
  = applyBaseline_in [2; 0] baseline (sample_state observed_props []).
Proof.
  intros baseline.
  apply (applyBaseline_order_independent (sample_state observed_props []) baseline
           [0; 2] [2; 0]).
  - apply perm_swap.
  - repeat (apply Forall_cons; split; [unfold in_range; cbn; lia|]).
    apply Forall_nil. exact I.
Defined.

(** X12. A baseline with a key that is no index of the property list (one
    captured on an entity with more properties, say) makes [applyBaseline]
    panic at that key with Go's index-out-of-range, after it has written the
    values of the keys visited before: the entity is left partly updated. *)
Theorem applyBaseline_key_out_of_range (s : State) (baseline : gmap Z PropertyValue)
    (before : list Z) (k : Z) (rest : list Z) :
  Forall (in_range (st_entity s)) before ->
  ~ in_range (st_entity s) k ->
  exists s_before,
    applyBaseline_in before baseline s = (Ok tt, s_before) /\
    applyBaseline_in (before ++ k :: rest) baseline s
    = (Panic (IndexOutOfRange k (length (props (st_entity s)))), s_before).
Proof.
  intros Hbefore Hk.
  destruct (applyBaseline_in_state before baseline s Hbefore) as (ps & Hrun & Hps).
  eexists. split; [exact Hrun|].
  unfold applyBaseline_in in *. rewrite for_each_app, Hrun.
  cbn [for_each]. unfold Mbind at 1. unfold Mbind at 1, index_props.
  cbn [st_entity set_entity props set_props]. rewrite Hps, length_imap.
  unfold in_range in Hk.
  destruct (Z.leb_spec 0 k); [|reflexivity].
  destruct (Z.ltb_spec k (Z.of_nat (length (props (st_entity s))))); [lia|reflexivity].
Qed.

Lemma applyBaseline_key_out_of_range_witness :
  let baseline : gmap Z PropertyValue := <[5 := int_value 7]> (<[0 := int_value 5]> ∅) in
  exists s_before,
    applyBaseline_in [0] baseline (sample_state fresh_props []) = (Ok tt, s_before) /\
    applyBaseline_in [0; 5] baseline (sample_state fresh_props [])
    = (Panic (IndexOutOfRange 5 3), s_before).
Proof.
  intros baseline.
  apply (applyBaseline_key_out_of_range (sample_state fresh_props []) baseline [0] 5 []).
  - apply Forall_cons; split; [unfold in_range; cbn; lia|]. apply Forall_nil. exact I.
  - unfold in_range. cbn. lia.
Defined.

(** ** More on updates *)

Lemma index_run_panics_no_run newWay previous r :
  index_run_panics newWay previous r ->
  forall l r', ~ index_run newWay previous r l r'.
Proof.
  induction 1 as [previous r H|previous r idx r1 H Hne Hp IH]; intros l r' Hrun;
    inversion Hrun as [? ? ? H'|? ? idx' r1' l' ? H' Hne' Hrest]; subst;
    rewrite H in H'; try discriminate.
  - injection H' as Hi _. contradiction.
  - injection H' as Hi Hr. subst idx' r1'. eapply IH, Hrest.
Qed.

Lemma FindProperty_same_entries e e' n :
  map entry (props e') = map entry (props e) -> FindProperty e' n = FindProperty e n.
Proof.
  unfold FindProperty. generalize 0%nat (@None nat).
  generalize (props e) (props e'). intros ps.
  induction ps as [|p ps IH]; intros [|q qs] i found Heq; try discriminate; [reflexivity|].
  injection Heq as Hq Heq. cbn [FindProperty_loop]. rewrite Hq.
  destruct (String.eqb (name (entry p)) n); [destruct found|]; auto.
Qed.

Section MoreUpdateFacts.

Variable decode : flattenedPropEntry -> R PropertyValue.

(** The three ways [ApplyUpdate] can go. *)
Lemma ApplyUpdate_cases s :
  (ReadBit (st_reader s) = None /\ ApplyUpdate decode s = (Panic ReaderPanic, s)) \/
  (exists newWay r1,
     ReadBit (st_reader s) = Some (newWay, r1) /\
     index_run_panics newWay (-1) r1 /\
     ApplyUpdate decode s = (Panic ReaderPanic, set_reader r1 s)) \/
  (exists newWay r1 idxs r2,
     ReadBit (st_reader s) = Some (newWay, r1) /\
     index_run newWay (-1) r1 idxs r2 /\
     ApplyUpdate decode s = for_each idxs (update_prop decode) (set_reader r2 s)).
Proof.
  destruct (ReadBit (st_reader s)) as [[newWay r1]|] eqn:Hbit.
  - right.
    destruct (readFieldIndices (-1) newWay [] r1) as [[idxs r2]|] eqn:Hrun.
    + right. exists newWay, r1, idxs, r2. split; [reflexivity|].
      apply readFieldIndices_run in Hrun. split; [exact Hrun|].
      apply (ApplyUpdate_run decode s newWay r1 idxs r2 Hbit Hrun).
    + left. exists newWay, r1. split; [reflexivity|]. split.
      * eapply collect_loop_panics; [|exact Hrun]. lia.
      * unfold ApplyUpdate, Mbind, with_reader. rewrite Hbit.
        cbn [st_reader set_reader]. rewrite Hrun. reflexivity.
  - left. split; [reflexivity|].
    unfold ApplyUpdate, Mbind, with_reader. rewrite Hbit. reflexivity.
Qed.

Lemma update_prop_entity idx s o s' :
  update_prop decode idx s = (o, s') ->
  st_entity s' = set_props (props (st_entity s')) (st_entity s).
Proof.
  intros H.
  destruct (decide (0 <= idx < Z.of_nat (length (props (st_entity s))))) as [Hin|Hout].
  - destruct (lookup_lt_is_Some_2 (props (st_entity s)) (Z.to_nat idx)) as [p Hp]; [lia|].
    replace idx with (Z.of_nat (Z.to_nat idx)) in H by lia.
    rewrite (update_prop_in_range _ _ _ _ Hp) in H.
    destruct (decode (entry p) (st_reader s)) as [[val r']|] eqn:Hd.
    + apply call_handlers_frame in H as [-> _]. reflexivity.
    + injection H as _ <-. destruct (st_entity s). reflexivity.
  - rewrite update_prop_out_of_range in H by exact Hout. injection H as _ <-.
    destruct (st_entity s). reflexivity.
Qed.

Lemma for_each_update_entity idxs s o s' :
  for_each idxs (update_prop decode) s = (o, s') ->
  st_entity s' = set_props (props (st_entity s')) (st_entity s).
Proof.
  apply (for_each_invariant (fun s1 =>
    st_entity s1 = set_props (props (st_entity s1)) (st_entity s))).
  - intros idx s1 o1 s2 H1 E. apply update_prop_entity in E. rewrite E, H1. reflexivity.
  - destruct (st_entity s). reflexivity.
Qed.

(** X13. When the index list cannot be read to its end marker (the reader
    ends before it), [ApplyUpdate] panics before it touches anything: the
    indices are gathered first, so no value has been decoded, no property
    changed and no handler called. *)
Theorem ApplyUpdate_index_list_panic (s : State) :
  ReadBit (st_reader s) = None \/
  (exists newWay r1, ReadBit (st_reader s) = Some (newWay, r1) /\
                     index_run_panics newWay (-1) r1) ->
  exists s',
    ApplyUpdate decode s = (Panic ReaderPanic, s') /\
    st_entity s' = st_entity s /\ st_heap s' = st_heap s /\
    st_maps s' = st_maps s /\ st_log s' = st_log s.
Proof.
  intros Hfail.
  destruct (ApplyUpdate_cases s) as [[Hbit ->]|[(nw & r1 & Hbit & Hp & ->)|
                                     (nw & r1 & idxs & r2 & Hbit & Hrun & _)]].
  - exists s. auto.
  - exists (set_reader r1 s). auto.
  - exfalso. destruct Hfail as [Hnone|(nw' & r1' & Hbit' & Hp)]; [congruence|].
    rewrite Hbit in Hbit'. injection Hbit' as <- <-.
    eapply index_run_panics_no_run; eassumption.
Qed.

(** X14. Whatever its outcome, [ApplyUpdate] changes nothing of the entity
    but property values: the class, the id, both callback lists, the
    entries and the handler lists are as before, so [FindProperty] answers
    as before; and a property whose index is not in the record's index list
    is exactly as before. *)
Theorem ApplyUpdate_frame (s : State) (o : outcome unit) (s' : State) :
  ApplyUpdate decode s = (o, s') ->
  st_entity s' = set_props (props (st_entity s')) (st_entity s) /\
  map entry (props (st_entity s')) = map entry (props (st_entity s)) /\
  map updateHandlers (props (st_entity s')) = map updateHandlers (props (st_entity s)) /\
  (forall n, FindProperty (st_entity s') n = FindProperty (st_entity s) n) /\
  forall newWay r1 idxs r2 (j : nat),
    ReadBit (st_reader s) = Some (newWay, r1) ->
    index_run newWay (-1) r1 idxs r2 ->
    Z.of_nat j ∉ idxs ->
    props (st_entity s') !! j = props (st_entity s) !! j.
Proof.
  intros H.
  assert (Hlayout :
    st_entity s' = set_props (props (st_entity s')) (st_entity s) /\
    map entry (props (st_entity s')) = map entry (props (st_entity s)) /\
    map updateHandlers (props (st_entity s')) = map updateHandlers (props (st_entity s))).
  { destruct (ApplyUpdate_cases s) as [[Hbit E]|[(nw & r1 & Hbit & Hp & E)|
                                       (nw & r1 & idxs & r2 & Hbit & Hrun & E)]];
      rewrite E in H.
    - injection H as _ <-. destruct (st_entity s). auto.
    - injection H as _ <-. cbn. destruct (st_entity s). auto.
    - pose proof (for_each_update_entity _ _ _ _ H) as He.
      apply for_each_update_layout in H as [H1 H2]. auto. }
  destruct Hlayout as (He & Hentry & Hh).
  split; [exact He|]. split; [exact Hentry|]. split; [exact Hh|].
  split; [intros n; apply FindProperty_same_entries, Hentry|].
  intros newWay r1 idxs r2 j Hbit Hrun Hj.
  rewrite (ApplyUpdate_run decode _ _ _ _ _ Hbit Hrun) in H.
  apply (for_each_update_other decode _ _ _ _ j H Hj).
Qed.

End MoreUpdateFacts.

Lemma ApplyUpdate_index_list_panic_witness :
  exists s',
    ApplyUpdate sample_decode (sample_state observed_props (take 10 sample_record))
    = (Panic ReaderPanic, s') /\
    st_entity s' = mkEntity 0 1 observed_props [] [] /\ st_log s' = [].
Proof.
  destruct (ApplyUpdate_index_list_panic sample_decode
              (sample_state observed_props (take 10 sample_record)))
    as (s' & H & He & _ & _ & Hl).
  - right. exists true, (take 9 (index_bits ++ value_bits)). split; [reflexivity|].
    apply (collect_loop_panics 9 (-1) true [] (take 9 (index_bits ++ value_bits)));
      [vm_compute; lia|vm_compute; reflexivity].
  - exists s'. auto.
Defined.

Lemma ApplyUpdate_frame_witness :
  exists s',
    ApplyUpdate sample_decode (sample_state observed_props sample_record) = (Ok tt, s') /\
    props (st_entity s') !! 1%nat = Some (sample_prop "b" 3 []) /\
    FindProperty (st_entity s') "c" = Ok (Some 2%nat).
Proof.
  assert (H : exists s', ApplyUpdate sample_decode (sample_state observed_props sample_record)
                         = (Ok tt, s')) by (eexists; vm_compute; reflexivity).
  destruct H as [s' H]. exists s'. split; [exact H|].
  destruct (ApplyUpdate_frame sample_decode _ _ _ H) as (_ & _ & _ & HF & Hother).
  split.
  - rewrite (Hother true (index_bits ++ value_bits) [0; 2] value_bits 1%nat eq_refl
               sample_run_values).
    + reflexivity.
    + intros Hin. repeat (apply elem_of_cons in Hin as [Hin|Hin]; [discriminate Hin|]).
      inversion Hin.
  - rewrite HF. reflexivity.
Defined.

(** ** Binding a variable of the wrong shape *)

Lemma call_binder_wrong c variable val s :
  (forall l, variable <> Pointer (target_type c) (Some l)) ->
  call_handler (binder c variable) val s
  = (Panic match variable with
           | Pointer t None => if decide (t = target_type c) then NilPointer
                               else TypeAssertion
           | _ => TypeAssertion
           end,
     set_log (st_log s ++ [HandlerCalled (binder c variable) val]) s).
Proof.
  intros Hv. unfold call_handler, Mbind, log_event, assign.
  rewrite type_of_converted.
  destruct variable as [t [l|]|]; [| |reflexivity].
  - destruct (decide (t = target_type c)) as [->|]; [|reflexivity].
    exfalso. eapply Hv. reflexivity.
  - destruct (decide (t = target_type c)); reflexivity.
Qed.

Section WrongVariable.

Variable decode : flattenedPropEntry -> R PropertyValue.

(** X15. [Bind] does not look at the variable: whatever is passed, the binder
    is registered.  The type assertion is made when the binder is called, so
    a variable that is no non-nil pointer of the kind's type makes the first
    update of the property panic (interface conversion, or nil dereference
    for a nil pointer of the right type), after the new value has been stored
    in the property and the handlers registered before have run. *)
Theorem Bind_wrong_variable (s : State) (i : nat) (p : Property)
    (kind : propertyValueType) (variable : iface) :
  props (st_entity s) !! i = Some p ->
  In kind supported_kinds ->
  (forall l, variable <> variable_of_kind kind l) ->
  Bind (Some i) variable kind s
  = (Ok tt, with_prop i (with_handler p (binder_for variable kind)) s) /\
  forall s2 p2 hs val r' s_hs,
    props (st_entity s2) !! i = Some p2 ->
    updateHandlers p2 = hs ++ [binder_for variable kind] ->
    decode (entry p2) (st_reader s2) = Some (val, r') ->
    call_handlers hs val
      (with_prop i (mkProperty (entry p2) (updateHandlers p2) val) (set_reader r' s2))
    = (Ok tt, s_hs) ->
    update_prop decode (Z.of_nat i) s2
    = (Panic match variable with
             | Pointer t None =>
                 if decide (t = type_of (written_value kind zeroValue)) then NilPointer
                 else TypeAssertion
             | _ => TypeAssertion
             end,
       set_log (st_log s_hs ++ [HandlerCalled (binder_for variable kind) val]) s_hs) /\
    props (st_entity s_hs) !! i = Some (mkProperty (entry p2) (updateHandlers p2) val).
Proof.
  intros Hp Hk Hv.
  destruct (supported_kind_case kind Hk) as (c & Hc & Hconv & Hty).
  assert (Hb : binder_for variable kind = binder c variable).
  { unfold binder_for. rewrite Hc. reflexivity. }
  split; [unfold Bind; fold (binder_for variable kind); apply OnUpdate_some, Hp|].
  intros s2 p2 hs val r' s_hs Hp2 Hhs Hdec Hrun.
  rewrite (update_prop_in_range decode i p2 s2 Hp2), Hdec.
  pose proof (call_handlers_frame _ _ _ _ _ Hrun) as [Hent _].
  split.
  - set (s0 := with_prop i _ _) in *. rewrite Hhs.
    unfold call_handlers in *. rewrite for_each_app, Hrun.
    cbn [for_each]. rewrite Hb. cbn [is_nil]. unfold Mbind.
    rewrite call_binder_wrong.
    + rewrite (Hty zeroValue). reflexivity.
    + intros l ->. apply (Hv l). unfold variable_of_kind. rewrite Hty. reflexivity.
  - rewrite Hent. cbn. apply list_lookup_insert_eq. eapply lookup_lt_Some, Hp2.
Qed.

End WrongVariable.

Lemma Bind_wrong_variable_witness :
  exists s1 s2,
    Bind (Some 0%nat) (Pointer PString (Some 5%nat)) ValTypeInt (sample_state fresh_props [])
    = (Ok tt, s1) /\
    update_prop sample_decode 0 (set_reader [true; false] s1) = (Panic TypeAssertion, s2) /\
    value <$> props (st_entity s2) !! 0%nat = Some (int_value 1).
Proof.
  destruct (Bind_wrong_variable sample_decode (sample_state fresh_props []) 0
              (sample_prop "a" 2 []) ValTypeInt (Pointer PString (Some 5%nat)) eq_refl)
    as [HB Hupd].
  - cbn. auto.
  - intros l. discriminate.
  - eexists. eexists. split; [exact HB|].
    destruct (Hupd (set_reader [true; false]
                      (with_prop 0 (with_handler (sample_prop "a" 2 [])
                                      (binder_for (Pointer PString (Some 5%nat)) ValTypeInt))
                         (sample_state fresh_props [])))
                   (with_handler (sample_prop "a" 2 [])
                      (binder_for (Pointer PString (Some 5%nat)) ValTypeInt))
                   [] (int_value 1) [] _ eq_refl eq_refl eq_refl eq_refl) as [H1 H2].
    split; [exact H1|]. cbn. reflexivity.
Defined.

(** ** What a baseline holds, and what a failed capture leaves behind *)

Section BaselineFacts.

Variable decode : flattenedPropEntry -> R PropertyValue.

(** The update loop on an entity whose adders write to the map [m]: the map
    gathers, for every index of the loop, the value the property ends with. *)
Lemma capture_values m idxs :
  forall sA sA' mA,
    for_each idxs (update_prop decode) sA = (Ok tt, sA') ->
    adders_attached m (props (st_entity sA)) ->
    st_maps sA !! m = Some mA ->
    exists mA',
      st_maps sA' !! m = Some mA' /\
      (forall k, k ∈ idxs ->
         exists p', 0 <= k /\ props (st_entity sA') !! Z.to_nat k = Some p' /\
                    mA' !! k = Some (value p')) /\
      (forall k, k ∉ idxs -> mA' !! k = mA !! k).
Proof.
  induction idxs as [|idx idxs IH]; intros sA sA' mA Hloop Hadd Hmap.
  - injection Hloop as <-. exists mA. split; [exact Hmap|].
    split; [|reflexivity]. intros k Hk. inversion Hk.
  - cbn [for_each] in Hloop. unfold Mbind in Hloop.
    destruct (update_prop decode idx sA) as [[[]|q] sA1] eqn:E; [|discriminate].
    apply update_prop_ok in E as (i & pA & val & r' & -> & HpA & Hd & Hrun).
    destruct (Hadd i pA HpA) as (hs & Hhs & Hother).
    set (sA0 := with_prop i (mkProperty (entry pA) (updateHandlers pA) val)
                  (set_reader r' sA)) in Hrun.
    rewrite Hhs in Hrun. unfold call_handlers in Hrun. rewrite for_each_app in Hrun.
    destruct (for_each hs _ sA0) as [[[]|q] sA0'] eqn:Ehs; [|discriminate].
    fold (call_handlers hs val sA0) in Ehs.
    pose proof (call_handlers_other_maps _ _ _ _ _ _ Hother Ehs) as Hm0.
    apply call_handlers_frame in Ehs as [Hent0 Hrd0].
    cbn in Hrun. injection Hrun as <-.
    edestruct (IH _ sA' (<[Z.of_nat i := val]> mA) Hloop)
      as (mA' & Hmap' & Hin & Hout).
    + cbn. rewrite Hent0. cbn. intros j pj Hj.
      destruct (decide (j = i)) as [->|Hne].
      * rewrite list_lookup_insert_eq in Hj by (eapply lookup_lt_Some, HpA).
        injection Hj as <-. cbn. eauto.
      * rewrite list_lookup_insert_ne in Hj by congruence. apply Hadd, Hj.
    + cbn. rewrite list_lookup_alter_eq, Hm0. cbn. rewrite Hmap. reflexivity.
    + exists mA'. split; [exact Hmap'|]. split.
      * intros k Hk. destruct (decide (k ∈ idxs)) as [Hk'|Hk']; [apply Hin, Hk'|].
        apply elem_of_cons in Hk as [->|Hk]; [|contradiction].
        exists (mkProperty (entry pA) (updateHandlers pA) val).
        split; [lia|]. rewrite Nat2Z.id. split.
        -- rewrite (for_each_update_other decode _ _ _ _ i Hloop Hk'). cbn.
           rewrite Hent0. cbn. apply list_lookup_insert_eq. eapply lookup_lt_Some, HpA.
        -- rewrite (Hout _ Hk'). apply lookup_insert_eq.
      * intros k Hk. apply not_elem_of_cons in Hk as [Hne Hk].
        rewrite (Hout _ Hk). apply lookup_insert_ne. congruence.
Qed.

Lemma attached_adders m (ps : list Property) :
  Forall (fun p => Forall (fun h => adder_map h <> Some m) (updateHandlers p)) ps ->
  adders_attached m
    (imap (fun i p => mkProperty (entry p) (updateHandlers p ++ [adder m (Z.of_nat i)])
                        (value p)) ps).
Proof.
  intros Hps i p Hp. rewrite list_lookup_imap in Hp.
  destruct (ps !! i) as [p0|] eqn:Hp0; [|discriminate].
  injection Hp as <-. cbn. exists (updateHandlers p0). split; [reflexivity|].
  rewrite Forall_forall in Hps. apply Hps. eapply list_elem_of_lookup_2, Hp0.
Qed.

(** X16. The baseline [initializeBaseline] returns is the snapshot of what
    the record touched: its keys are exactly the indices of the record's
    index list, each with the value the property holds when the capture
    returns; a property the record does not list keeps its value and has no
    key. *)
Theorem initializeBaseline_snapshot (s : State) (baseline : gmap Z PropertyValue)
    (s' : State) :
  initializeBaseline decode s = (Ok baseline, s') ->
  adders_allocated s ->
  exists newWay r1 idxs r2,
    ReadBit (st_reader s) = Some (newWay, r1) /\
    index_run newWay (-1) r1 idxs r2 /\
    (forall k, is_Some (baseline !! k) <-> k ∈ idxs) /\
    (forall k v, baseline !! k = Some v ->
       0 <= k /\ value <$> props (st_entity s') !! Z.to_nat k = Some v) /\
    (forall j : nat, Z.of_nat j ∉ idxs ->
       value <$> props (st_entity s') !! j = value <$> props (st_entity s) !! j).
Proof.
  intros Hinit Hwf.
  rewrite initializeBaseline_unfold in Hinit. cbv zeta in Hinit.
  set (m := length (st_maps s)) in *.
  set (attached := set_entity _ (set_maps _ s)) in Hinit.
  destruct (ApplyUpdate decode attached) as [[[]|q] sc] eqn:Hup; [|discriminate].
  injection Hinit as <- <-.
  apply ApplyUpdate_ok in Hup as (newWay & r1 & idxs & r2 & Hbit & Hrun & Hloop).
  destruct (capture_values m idxs (set_reader r2 attached) sc ∅ Hloop)
    as (mA' & Hmap & Hin & Hout).
  { subst attached. cbn. apply attached_adders.
    unfold adders_allocated in Hwf. eapply Forall_impl; [exact Hwf|].
    cbn. intros p Hp. eapply Forall_impl; [exact Hp|].
    cbn. intros h Hh Heq. specialize (Hh m Heq). lia. }
  { subst attached m. cbn. apply list_lookup_middle. reflexivity. }
  exists newWay, r1, idxs, r2. split; [exact Hbit|]. split; [exact Hrun|].
  rewrite Hmap. change (default ∅ (Some mA')) with mA'.
  assert (Hval : forall j, value <$> (map (fun p => mkProperty (entry p) [] (value p))
                                        (props (st_entity sc))) !! j
                           = value <$> props (st_entity sc) !! j).
  { intros j. rewrite list_lookup_fmap. destruct (props (st_entity sc) !! j); reflexivity. }
  split; [|split].
  - intros k. split.
    + intros [v Hv]. destruct (decide (k ∈ idxs)) as [|Hn]; [assumption|].
      rewrite (Hout _ Hn), lookup_empty in Hv. discriminate.
    + intros Hk. destruct (Hin _ Hk) as (p' & _ & _ & Hv). eauto.
  - intros k v Hv. destruct (decide (k ∈ idxs)) as [Hk|Hn].
    + destruct (Hin _ Hk) as (p' & Hk0 & Hp' & Hv'). split; [exact Hk0|].
      cbn [st_entity set_entity props set_props]. rewrite Hval, Hp'. cbn. congruence.
    + rewrite (Hout _ Hn), lookup_empty in Hv. discriminate.
  - intros j Hj. cbn [st_entity set_entity props set_props]. rewrite Hval.
    rewrite (for_each_update_other decode _ _ _ _ j Hloop Hj).
    subst attached. cbn. rewrite list_lookup_imap.
    destruct (props (st_entity s) !! j); reflexivity.
Qed.

Lemma ApplyUpdate_layout s o s' :
  ApplyUpdate decode s = (o, s') ->
  map entry (props (st_entity s')) = map entry (props (st_entity s)) /\
  map updateHandlers (props (st_entity s')) = map updateHandlers (props (st_entity s)).
Proof.
  intros H.
  destruct (ApplyUpdate_cases decode s) as [[Hbit E]|[(nw & r1 & Hbit & Hp & E)|
                                            (nw & r1 & idxs & r2 & Hbit & Hrun & E)]];
    rewrite E in H.
  - injection H as _ <-. auto.
  - injection H as _ <-. auto.
  - apply for_each_update_layout in H. exact H.
Qed.

(** X17. [initializeBaseline] removes its observers in its last loop only,
    not on the way out of a panic: when the capture panics (the reader ends,
    an index is out of range, a handler panics), every property is left with
    the capture's adder registered after the handlers it had. *)
Theorem initializeBaseline_panic_leaves_adders (s : State) (q : panic) (s' : State) :
  initializeBaseline decode s = (Panic q, s') ->
  forall i p, props (st_entity s) !! i = Some p ->
    exists p', props (st_entity s') !! i = Some p' /\
               entry p' = entry p /\
               updateHandlers p'
               = updateHandlers p ++ [adder (length (st_maps s)) (Z.of_nat i)].
Proof.
  intros Hinit i p Hp.
  rewrite initializeBaseline_unfold in Hinit. cbv zeta in Hinit.
  set (attached := set_entity _ (set_maps _ s)) in Hinit.
  destruct (ApplyUpdate decode attached) as [[[]|q'] sc] eqn:Hup; [discriminate|].
  injection Hinit as _ <-.
  apply ApplyUpdate_layout in Hup as [He Hh].
  assert (He' : entry <$> props (st_entity sc) !! i
                = entry <$> props (st_entity attached) !! i).
  { rewrite <- !list_lookup_fmap. exact (f_equal (fun l => l !! i) He). }
  assert (Hh' : updateHandlers <$> props (st_entity sc) !! i
                = updateHandlers <$> props (st_entity attached) !! i).
  { rewrite <- !list_lookup_fmap. exact (f_equal (fun l => l !! i) Hh). }
  subst attached. cbn in He', Hh'.
  rewrite list_lookup_imap, Hp in He', Hh'. cbn in He', Hh'.
  destruct (props (st_entity sc) !! i) as [p'|]; [|discriminate].
  injection He' as He'. injection Hh' as Hh'. eauto.
Qed.

End BaselineFacts.

Lemma initializeBaseline_snapshot_witness :
  let s := sample_state observed_props sample_record in
  exists baseline s',
    initializeBaseline sample_decode s = (Ok baseline, s') /\
    exists newWay r1 idxs r2,
      ReadBit (st_reader s) = Some (newWay, r1) /\
      index_run newWay (-1) r1 idxs r2 /\
      (forall k, is_Some (baseline !! k) <-> k ∈ idxs) /\
      (forall k v, baseline !! k = Some v ->
         0 <= k /\ value <$> props (st_entity s') !! Z.to_nat k = Some v) /\
      (forall j : nat, Z.of_nat j ∉ idxs ->
         value <$> props (st_entity s') !! j = value <$> props (st_entity s) !! j).
Proof.
  intros s.
  assert (Hinit : exists baseline s', initializeBaseline sample_decode s = (Ok baseline, s')).
  { eexists. eexists. vm_compute. reflexivity. }
  destruct Hinit as (baseline & s' & Hinit).
  exists baseline, s'. split; [exact Hinit|].
  exact (initializeBaseline_snapshot sample_decode s baseline s' Hinit
           observed_adders_allocated).
Defined.

Lemma initializeBaseline_panic_leaves_adders_witness :
  exists q s',
    initializeBaseline sample_decode (sample_state observed_props (take 10 sample_record))
    = (Panic q, s') /\
    updateHandlers <$> props (st_entity s') !! 1%nat = Some [adder 0 1].
Proof.
  assert (Hinit : exists q s',
            initializeBaseline sample_decode
              (sample_state observed_props (take 10 sample_record)) = (Panic q, s')).
  { eexists. eexists. vm_compute. reflexivity. }
  destruct Hinit as (q & s' & Hinit). exists q, s'. split; [exact Hinit|].
  destruct (initializeBaseline_panic_leaves_adders sample_decode _ _ _ Hinit 1
              (sample_prop "b" 3 []) eq_refl) as (p' & Hp' & _ & Hh).
  rewrite Hp'. cbn. rewrite Hh. reflexivity.
Defined.
